(** * Heartbeat monitor (server / client over TCP): model of [main.cpp]

    The program talks to the operating system all the time, so every
    function of the source is embedded as a tree of system calls
    ([prog]).  A tree is run either alone against the answers of the
    operating system ([run]), or as one thread of a pool whose steps are
    interleaved by a schedule ([pool_step]). *)

From Stdlib Require Import ZArith Lia Ascii String List Bool DecimalString DecimalPos.
From stdpp Require Import base list strings.

Local Open Scope string_scope.
Local Open Scope Z_scope.

(** ** Text *)

Definition NUL : ascii := Ascii.zero.
Definition newline : string := String (ascii_of_nat 10) EmptyString.

(** [n] copies of the character [c]. *)
Fixpoint fill (n : nat) (c : ascii) : string :=
  match n with
  | O => EmptyString
  | S n' => String c (fill n' c)
  end.

(** The first [n] characters of [s]. *)
Fixpoint prefix_of (n : nat) (s : string) : string :=
  match n, s with
  | S n', String c s' => String c (prefix_of n' s')
  | _, _ => EmptyString
  end.

(** What [operator<<(const char* )] prints for a character array: the
    characters before the first NUL.  When the array holds no NUL the
    insertion reads past its end, which has no defined behaviour
    ([None]). *)
Fixpoint c_string (arr : string) : option string :=
  match arr with
  | EmptyString => None
  | String c rest =>
      if Ascii.eqb c NUL then Some EmptyString
      else match c_string rest with
           | Some s => Some (String c s)
           | None => None
           end
  end.

(** ** System calls *)

(** Result of [read]: an error, or the bytes the connection delivers. *)
Inductive read_result : Type :=
| ReadError
| ReadData (bytes : string).

(** [struct tm], the fields [put_time] uses. *)
Record tm : Type := mk_tm {
  tm_year : Z;  (* years since 1900 *)
  tm_mon  : Z;  (* 0..11 *)
  tm_mday : Z;
  tm_hour : Z;
  tm_min  : Z;
  tm_sec  : Z
}.

(** An [int*] that [new int(v)] gave.  The program only reads the
    [int] it points to, so the pointer is known here by that value;
    where the [int] lies is the allocator's business. *)
Record int_ptr : Type := new_int { deref : Z }.

Inductive call : Type :=
| c_socket                                   (* socket(AF_INET, SOCK_STREAM, 0) *)
| c_bind (fd : Z) (port : Z)                 (* bind to INADDR_ANY:port *)
| c_listen (fd : Z) (backlog : Z)
| c_accept (fd : Z)
| c_read (fd : Z) (count : nat)
| c_close (fd : Z)
| c_close_ptr (p : int_ptr)                  (* close(p): the argument is the pointer *)
| c_inet_pton (addr : string)
| c_connect (fd : Z) (addr : string) (port : Z)
| c_send (fd : Z) (msg : string) (len : nat)
| c_now                                      (* system_clock::now(), in ns *)
| c_localtime (t : Z)
| c_sleep (seconds : Z)
| c_cout (line : string)                     (* std::cout << ... << std::endl *)
| c_cerr (line : string)                     (* std::cerr << ... << std::endl *)
| c_thread_detach (client_fd : Z)            (* std::thread(&Server::HandleClient, ..).detach() *)
| c_lock                                     (* file_mutex_.lock() *)
| c_unlock
| c_log_open                                 (* std::ofstream("log.txt", std::ios::app) *)
| c_log_insert (s : string)                  (* log_file << s *)
| c_log_endl                                 (* log_file << std::endl *)
| c_log_close.

(** [c_close_ptr] is what the deleter of a
    [std::unique_ptr<int, decltype(&close)>] does: [unique_ptr] hands
    its deleter the pointer it owns, so [close] is called with the
    [int*] (a compiler lets the pointer pass for an [int] in permissive
    mode only), never with the descriptor stored behind it.

    The creation of a thread, the locking of the mutex and the
    allocation of memory are taken to succeed: [std::system_error] and
    [std::bad_alloc] are not thrown here.  The insertions into the
    streams do not throw either, as in the source, which sets no
    exception mask. *)

(** What each call gives back to the program. *)
Definition ans (c : call) : Type :=
  match c with
  | c_socket | c_bind _ _ | c_listen _ _ | c_accept _
  | c_inet_pton _ | c_connect _ _ _ | c_send _ _ _ | c_now => Z
  | c_read _ _ => read_result
  | c_localtime _ => tm
  | c_log_open => bool
  | _ => unit
  end.

Record event : Type := Ev { ev_call : call; ev_ans : ans ev_call }.

(** ** Exceptions *)

Inductive exn : Type :=
| SocketException (message : string)
| invalid_argument (what : string)
| out_of_range (what : string).

Definition what (e : exn) : string :=
  match e with
  | SocketException m => m
  | invalid_argument w => w
  | out_of_range w => w
  end.

(** ** Programs *)

Inductive prog (R : Type) : Type :=
| Ret (r : R)                                (* normal return *)
| Throw (e : exn)                            (* an exception propagates *)
| Undefined                                  (* no defined behaviour from here on *)
| Running                                    (* a [while (true)] cut after its bound *)
| Vis (c : call) (k : ans c -> prog R).

Arguments Ret {R} r.
Arguments Throw {R} e.
Arguments Undefined {R}.
Arguments Running {R}.
Arguments Vis {R} c k.

Module Prog.

Fixpoint bind {A B : Type} (p : prog A) (f : A -> prog B) : prog B :=
  match p with
  | Ret a => f a
  | Throw e => Throw e
  | Undefined => Undefined
  | Running => Running
  | Vis c k => Vis c (fun x => bind (k x) f)
  end.

Definition sys (c : call) : prog (ans c) := Vis c (fun x => Ret x).

(** [try { p } catch (...) { h e }]: [h] rethrows what it does not catch. *)
Fixpoint try_catch {R : Type} (p : prog R) (h : exn -> prog R) : prog R :=
  match p with
  | Ret r => Ret r
  | Throw e => h e
  | Undefined => Undefined
  | Running => Running
  | Vis c k => Vis c (fun x => try_catch (k x) h)
  end.

(** A local object with a destructor: [cleanup] runs when the scope of
    [p] is left, by its end or by an exception. *)
Fixpoint finally {R : Type} (p : prog R) (cleanup : prog unit) : prog R :=
  match p with
  | Ret r => bind cleanup (fun _ => Ret r)
  | Throw e => bind cleanup (fun _ => Throw e)
  | Undefined => Undefined
  | Running => Running
  | Vis c k => Vis c (fun x => finally (k x) cleanup)
  end.

End Prog.

Import Prog.

Declare Scope prog_scope.
Delimit Scope prog_scope with prog.
Bind Scope prog_scope with prog.
Notation "x <- p ;; q" := (bind p (fun x => q))
  (at level 100, p at next level, right associativity,
   format "'[v' x  <-  p  ;;  '/' q ']'") : prog_scope.
Notation "p ;; q" := (bind p (fun _ => q))
  (at level 100, right associativity,
   format "'[v' p  ;;  '/' q ']'") : prog_scope.
Local Open Scope prog_scope.

(** ** One thread alone *)

Inductive outcome (R : Type) : Type :=
| Returned (r : R)
| Threw (e : exn)
| Undef
| StillRunning.

Arguments Returned {R} r.
Arguments Threw {R} e.
Arguments Undef {R}.
Arguments StillRunning {R}.

(** The operating system: the answer to the [i]-th call of a run. *)
Definition oracle : Type := nat -> forall c : call, ans c.

Fixpoint run {R : Type} (o : oracle) (i : nat) (p : prog R) : list event * outcome R :=
  match p with
  | Ret r => ([], Returned r)
  | Throw e => ([], Threw e)
  | Undefined => ([], Undef)
  | Running => ([], StillRunning)
  | Vis c k =>
      let x := o i c in
      let '(tr, out) := run o (S i) (k x) in
      (Ev c x :: tr, out)
  end.

(** ** Numbers as text *)

(** What [operator<<] prints for an integer. *)
Definition dec (n : Z) : string := NilZero.string_of_int (Z.to_int n).

(** [std::setfill(c) << std::setw(w) << s]: filled on the left up to
    the width [w]; a longer [s] is left as it is. *)
Definition pad_left (w : nat) (c : ascii) (s : string) : string :=
  fill (w - String.length s) c +:+ s.

Definition two_digits (n : Z) : string := pad_left 2 "0" (dec n).

(** [std::put_time(t, "%Y-%m-%d %H:%M:%S")]. *)
Definition put_time (t : tm) : string :=
  dec (tm_year t + 1900) +:+ "-" +:+ two_digits (tm_mon t + 1) +:+ "-" +:+
  two_digits (tm_mday t) +:+ " " +:+ two_digits (tm_hour t) +:+ ":" +:+
  two_digits (tm_min t) +:+ ":" +:+ two_digits (tm_sec t).

(** ** [std::stoi] *)

Definition isspace (c : ascii) : bool :=
  let n := nat_of_ascii c in
  (Nat.eqb n 32 || (Nat.leb 9 n && Nat.leb n 13))%bool.

Definition digit_value (c : ascii) : option Z :=
  let n := nat_of_ascii c in
  if (Nat.leb 48 n && Nat.leb n 57)%bool then Some (Z.of_nat n - 48) else None.

Fixpoint skip_spaces (s : string) : string :=
  match s with
  | String c rest => if isspace c then skip_spaces rest else s
  | EmptyString => s
  end.

(** The value of the leading digits of [s], [None] without a digit. *)
Fixpoint leading_digits (acc : option Z) (s : string) : option Z :=
  match s with
  | String c rest =>
      match digit_value c with
      | Some d =>
          leading_digits (Some (10 * match acc with Some a => a | None => 0 end + d)) rest
      | None => acc
      end
  | EmptyString => acc
  end.

Definition INT_MIN : Z := - 2 ^ 31.
Definition INT_MAX : Z := 2 ^ 31 - 1.

(** What [stoi] makes of the number [v] it has read: [v] itself when
    it is an [int], [out_of_range] otherwise. *)
Definition in_int (v : Z) : exn + Z :=
  if ((INT_MIN <=? v) && (v <=? INT_MAX))%bool then inr v
  else inl (out_of_range "stoi").

(** [std::stoi(s)]: white space, a sign, digits; what follows the digits
    is ignored.  No digit throws [invalid_argument]; [what()] is "stoi"
    for both exceptions, as in libstdc++. *)
Definition stoi (s : string) : exn + Z :=
  let s1 := skip_spaces s in
  let '(negative, s2) :=
    match s1 with
    | String "-" rest => (true, rest)
    | String "+" rest => (false, rest)
    | _ => (false, s1)
    end in
  match leading_digits None s2 with
  | None => inl (invalid_argument "stoi")
  | Some v => in_int (if negative then - v else v)
  end.

(** [static_cast<std::uint16_t>(v)]. *)
Definition to_uint16 (v : Z) : Z := v mod 2 ^ 16.

Definition lift {R : Type} (r : exn + R) : prog R :=
  match r with
  | inl e => Throw e
  | inr v => Ret v
  end.

(** A [std::unique_ptr<int, decltype(&close)>] local that is moved out
    on return: only an exception destroys it here, and then runs its
    deleter. *)
Definition on_unwind {R : Type} (p : prog R) (cleanup : prog unit) : prog R :=
  try_catch p (fun e => cleanup ;; Throw e).

(** [catch (const SocketException& e)]: other exceptions pass. *)
Definition catch_socket {R : Type} (h : string -> prog R) (e : exn) : prog R :=
  match e with
  | SocketException m => h m
  | _ => Throw e
  end.

(** ** class Server *)

Module Server.

Record t : Type := mk { port_ : Z }.

Definition CreateSocket : prog int_ptr :=
  fd <- sys c_socket ;;
  let server_fd := new_int fd in
  on_unwind
    (if deref server_fd =? -1 then Throw (SocketException "Failed to create socket")
     else Ret server_fd)
    (sys (c_close_ptr server_fd)).                (* ~unique_ptr: close(server_fd.get()) *)

Definition BindSocket (this : t) (server_fd : Z) : prog unit :=
  r <- sys (c_bind server_fd (port_ this)) ;;
  if r <? 0 then Throw (SocketException "Failed to bind") else Ret tt.

Definition ListenOnSocket (server_fd : Z) : prog unit :=
  r <- sys (c_listen server_fd 10) ;;
  if r <? 0 then Throw (SocketException "Failed to listen") else Ret tt.

(** [while (true)], cut after [n] rounds. *)
Fixpoint AcceptConnections (n : nat) (server_fd : Z) : prog unit :=
  match n with
  | O => Running
  | S n' =>
      client_fd <- sys (c_accept server_fd) ;;
      if client_fd <? 0 then
        sys (c_cerr "Failed to accept connection") ;;
        AcceptConnections n' server_fd
      else
        sys (c_thread_detach client_fd) ;;
        AcceptConnections n' server_fd
  end.

Definition buffer_size : nat := 1024.

(** [int bytes_read = read(client_fd, buffer, sizeof(buffer))]. *)
Definition bytes_read_of (r : read_result) : Z :=
  match r with
  | ReadError => -1
  | ReadData d => Z.of_nat (String.length (prefix_of buffer_size d))
  end.

(** [char buffer[1024] = {0}] after the read. *)
Definition buffer_after (r : read_result) : string :=
  match r with
  | ReadError => fill buffer_size NUL
  | ReadData d =>
      let got := prefix_of buffer_size d in
      got +:+ fill (buffer_size - String.length got) NUL
  end.

Definition HandleClient (client_fd : Z) : prog unit :=
  try_catch
    (r <- sys (c_read client_fd buffer_size) ;;
     let buffer := buffer_after r in
     let bytes_read := bytes_read_of r in
     if bytes_read <? 0 then
       Throw (SocketException "Failed to read from client socket")
     else
       sys c_lock ;;                              (* std::lock_guard lock(file_mutex_) *)
       finally
         (is_open <- sys c_log_open ;;
          if negb is_open then Throw (SocketException "Failed to open log file")
          else
            finally
              (match c_string buffer with
               | Some s => sys (c_log_insert s) ;; sys c_log_endl
               | None => Undefined
               end)
              (sys c_log_close))                  (* ~ofstream *)
         (sys c_unlock))                          (* ~lock_guard *)
    (catch_socket (fun m => sys (c_cerr ("Client handling error: " +:+ m)))) ;;
  sys (c_close client_fd).

Definition Start (n : nat) (this : t) : prog unit :=
  try_catch
    (server_fd <- CreateSocket ;;
     finally
       (BindSocket this (deref server_fd) ;;
        ListenOnSocket (deref server_fd) ;;
        sys (c_cout ("Server listening on port " +:+ dec (port_ this))) ;;
        AcceptConnections n (deref server_fd))
       (sys (c_close_ptr server_fd)))             (* ~unique_ptr: close(server_fd.get()) *)
    (catch_socket (fun m => sys (c_cerr ("Server error: " +:+ m)))).

End Server.

(** ** class Client *)

Module Client.

Record t : Type := mk { name_ : string; port_ : Z; period_ : Z }.

Definition CreateSocket : prog int_ptr :=
  fd <- sys c_socket ;;
  let sock := new_int fd in
  on_unwind
    (if deref sock <? 0 then Throw (SocketException "Socket creation error")
     else Ret sock)
    (sys (c_close_ptr sock)).                     (* ~unique_ptr: close(sock.get()) *)

Definition ConnectToServer (this : t) (sock : Z) : prog unit :=
  r <- sys (c_inet_pton "127.0.0.1") ;;
  if r <=? 0 then Throw (SocketException "Invalid address/ Address not supported")
  else
    c <- sys (c_connect sock "127.0.0.1" (port_ this)) ;;
    if c <? 0 then Throw (SocketException "Connection failed") else Ret tt.

(** [system_clock] counts nanoseconds since the epoch; [to_time_t] and
    [duration_cast] truncate, [%] is the remainder of that division. *)
Definition to_time_t (now : Z) : Z := Z.quot now 1000000000.

Definition ms_count (now : Z) : Z := Z.rem (Z.quot now 1000000) 1000.

(** What [ss] holds for the clock reading [now] and its local time. *)
Definition stamp (now : Z) (local : tm) : string :=
  put_time local +:+ "." +:+ pad_left 3 "0" (dec (ms_count now)).

Definition GetCurrentTimestamp : prog string :=
  now <- sys c_now ;;
  let now_time := to_time_t now in
  local <- sys (c_localtime now_time) ;;
  Ret (stamp now local).

Definition SendMessage (this : t) (sock : Z) : prog unit :=
  ts <- GetCurrentTimestamp ;;
  let message := ts +:+ " " +:+ name_ this in
  r <- sys (c_send sock message (String.length message)) ;;
  if r <? 0 then Throw (SocketException "Failed to send message") else Ret tt.

(** One round of the [while (true)] of [Start]: [sock] lives to the end
    of the loop body. *)
Definition round (this : t) : prog unit :=
  sock <- CreateSocket ;;
  finally
    (ConnectToServer this (deref sock) ;;
     SendMessage this (deref sock) ;;
     sys (c_sleep (period_ this)))
    (sys (c_close_ptr sock)).                     (* ~unique_ptr: close(sock.get()) *)

Fixpoint rounds (n : nat) (this : t) : prog unit :=
  match n with
  | O => Running
  | S n' => round this ;; rounds n' this
  end.

Definition Start (n : nat) (this : t) : prog unit :=
  try_catch (rounds n this)
    (catch_socket (fun m => sys (c_cerr ("Client error: " +:+ m)))).

End Client.

(** ** main *)

Definition argv_at (argv : list string) (i : nat) : string := nth i argv "".

Definition main (n : nat) (argv : list string) : prog Z :=
  let argc := Z.of_nat (length argv) in
  try_catch
    (if argc <? 2 then
       Throw (SocketException "Usage: server <port> or client <name> <port> <period>")
     else
       let mode := argv_at argv 1 in
       if (String.eqb mode "server" && (argc =? 3))%bool then
         v <- lift (stoi (argv_at argv 2)) ;;
         let port := to_uint16 v in
         Server.Start n (Server.mk port) ;;
         Ret 0
       else if (String.eqb mode "client" && (argc =? 5))%bool then
         let name := argv_at argv 2 in
         v <- lift (stoi (argv_at argv 3)) ;;
         let port := to_uint16 v in
         period <- lift (stoi (argv_at argv 4)) ;;
         Client.Start n (Client.mk name port period) ;;
         Ret 0
       else Throw (SocketException "Invalid arguments"))
    (fun e =>
       match e with
       | SocketException m => sys (c_cerr ("Error: " +:+ m)) ;; Ret 1
       | _ => sys (c_cerr ("Standard exception: " +:+ what e)) ;; Ret 1
       end).

(** ** Threads *)

(** The process: [main]'s thread at index 0, then one thread for each
    [std::thread(&Server::HandleClient, ..)] in the order of creation.
    [mutex] is the holder of [file_mutex_], [log_txt] the content of
    log.txt, [history] the calls executed so far, oldest first, each
    with the index of its thread. *)
Record pool : Type := mk_pool {
  threads : list (prog unit);
  mutex : option nat;
  log_txt : string;
  history : list (nat * event)
}.

Definition boot (log0 : string) (main_thread : prog unit) : pool :=
  mk_pool [main_thread] None log0 [].

(** Can thread [tid] execute [c] now?  [lock] waits for a free mutex;
    [unlock] is for the holder only. *)
Definition enabled (tid : nat) (c : call) (holder : option nat) : bool :=
  match c with
  | c_lock => match holder with None => true | Some _ => false end
  | c_unlock => bool_decide (holder = Some tid)
  | _ => true
  end.

Definition mutex_after (tid : nat) (c : call) (holder : option nat) : option nat :=
  match c with
  | c_lock => Some tid
  | c_unlock => None
  | _ => holder
  end.

(** What the call appends to log.txt. *)
Definition written (c : call) : string :=
  match c with
  | c_log_insert s => s
  | c_log_endl => newline
  | _ => ""
  end.

(** The thread the call creates. *)
Definition spawned (c : call) : list (prog unit) :=
  match c with
  | c_thread_detach client_fd => [Server.HandleClient client_fd]
  | _ => []
  end.

(** Thread [tid] executes its next call, which the operating system
    answers with [o].  A thread that has ended, or that waits for the
    mutex, leaves the pool as it is. *)
Definition pool_step (tid : nat) (o : forall c : call, ans c) (st : pool) : pool :=
  match threads st !! tid with
  | Some (Vis c k) =>
      if enabled tid c (mutex st) then
        mk_pool (<[tid := k (o c)]> (threads st) ++ spawned c)%list
                (mutex_after tid c (mutex st))
                (log_txt st +:+ written c)
                (history st ++ [(tid, Ev c (o c))])%list
      else st
  | _ => st
  end.

Definition schedule : Type := list (nat * (forall c : call, ans c)).

Definition run_pool (sched : schedule) (st : pool) : pool :=
  fold_left (fun s step => pool_step (fst step) (snd step) s) sched st.

(** ** Reading traces *)

Definition is_call (f : call -> bool) (e : event) : bool := f (ev_call e).

(** [close] called with a descriptor, whichever. *)
Definition is_close (c : call) : bool :=
  match c with
  | c_close _ => true
  | _ => false
  end.

Definition is_sleep (c : call) : bool :=
  match c with
  | c_sleep _ => true
  | _ => false
  end.

Definition is_accept (c : call) : bool :=
  match c with
  | c_accept _ => true
  | _ => false
  end.

(** A new connection attempt or a send. *)
Definition is_attempt (c : call) : bool :=
  match c with
  | c_socket | c_connect _ _ _ | c_send _ _ _ => true
  | _ => false
  end.

(** A failed socket creation, address conversion, connect or send: what
    makes a round of the client throw. *)
Definition is_failure (e : event) : bool :=
  match e with
  | Ev c_socket r => r <? 0
  | Ev (c_inet_pton _) r => r <=? 0
  | Ev (c_connect _ _ _) r => r <? 0
  | Ev (c_send _ _ _) r => r <? 0
  | _ => false
  end.

Definition no_failure (tr : list event) : bool :=
  forallb (fun e => negb (is_failure e)) tr.

(** After the first failure the trace holds no further attempt. *)
Fixpoint stops_at_first_failure (tr : list event) : bool :=
  match tr with
  | [] => true
  | e :: rest =>
      if is_failure e then forallb (fun e' => negb (is_call is_attempt e')) rest
      else stops_at_first_failure rest
  end.

(** What a thread that makes these calls appends to log.txt. *)
Fixpoint text_written (cs : list call) : string :=
  match cs with
  | [] => ""
  | c_log_insert s :: rest => s +:+ text_written rest
  | c_log_endl :: rest => newline +:+ text_written rest
  | _ :: rest => text_written rest
  end.

Definition log_written (tr : list event) : string := text_written (map ev_call tr).

Definition stderr_lines (cs : list call) : list string :=
  flat_map (fun c => match c with c_cerr l => [l] | _ => [] end) cs.

Definition stderr_of (tr : list event) : list string := stderr_lines (map ev_call tr).

(** The messages inserted into log.txt, in the order of the history. *)
Definition appended (h : list (nat * event)) : list string :=
  flat_map (fun te => match ev_call (snd te) with c_log_insert s => [s] | _ => [] end) h.

Definition endl_count (h : list (nat * event)) : nat :=
  length (List.filter (fun te => match ev_call (snd te) with c_log_endl => true | _ => false end) h).

Definition line (m : string) : string := m +:+ newline.

Fixpoint lines_text (ms : list string) : string :=
  match ms with
  | [] => ""
  | m :: rest => line m +:+ lines_text rest
  end.

(** The text cut at each newline; the part after the last newline is
    dropped when empty. *)
Fixpoint split_lines (cur : string) (s : string) : list string :=
  match s with
  | EmptyString => match cur with EmptyString => [] | _ => [cur] end
  | String c rest =>
      if Ascii.eqb c (ascii_of_nat 10) then cur :: split_lines "" rest
      else split_lines (cur +:+ String c "") rest
  end.

Fixpoint newline_free (s : string) : bool :=
  match s with
  | EmptyString => true
  | String c rest => negb (Ascii.eqb c (ascii_of_nat 10)) && newline_free rest
  end.

(** Where the holder of the mutex stands in its critical section. *)
Inductive phase : Type :=
| Locked                       (* mutex taken, log.txt not yet opened *)
| Opened                       (* log.txt open, nothing written *)
| Inserted (m : string)        (* message written, newline pending *)
| Ended                        (* line complete *)
| Closed.                      (* log.txt closed, or never opened *)

Inductive cs_state : Type :=
| Free
| Held (tid : nat) (ph : phase).

(** One call of thread [tid] seen by the lock discipline: [None] when
    the call breaks it (a file operation outside the critical section
    of the caller, or out of the order open, insert, endl, close). *)
Definition cs_step (s : cs_state) (tid : nat) (c : call) (x : ans c) : option cs_state :=
  match c return ans c -> option cs_state with
  | c_lock => fun _ =>
      match s with Free => Some (Held tid Locked) | _ => None end
  | c_unlock => fun _ =>
      match s with
      | Held t Closed => if decide (t = tid) then Some Free else None
      | _ => None
      end
  | c_log_open => fun is_open =>
      match s with
      | Held t Locked =>
          if decide (t = tid) then Some (Held t (if is_open then Opened else Closed))
          else None
      | _ => None
      end
  | c_log_insert m => fun _ =>
      match s with
      | Held t Opened => if decide (t = tid) then Some (Held t (Inserted m)) else None
      | _ => None
      end
  | c_log_endl => fun _ =>
      match s with
      | Held t (Inserted _) => if decide (t = tid) then Some (Held t Ended) else None
      | _ => None
      end
  | c_log_close => fun _ =>
      match s with
      | Held t Ended => if decide (t = tid) then Some (Held t Closed) else None
      | _ => None
      end
  | _ => fun _ => Some s
  end x.

(** The whole history checked against the discipline. *)
Definition cs_scan (h : list (nat * event)) : option cs_state :=
  fold_left
    (fun s te =>
       match s with
       | Some s' => cs_step s' (fst te) (ev_call (snd te)) (ev_ans (snd te))
       | None => None
       end)
    h (Some Free).

Definition holder (s : cs_state) : option nat :=
  match s with
  | Free => None
  | Held t _ => Some t
  end.

(** Where thread [tid] stands: [None] outside the critical section. *)
Definition phase_of (s : cs_state) (tid : nat) : option phase :=
  match s with
  | Free => None
  | Held t ph => if decide (t = tid) then Some ph else None
  end.

(** The message written whose newline is still to come. *)
Definition pending (s : cs_state) : option string :=
  match s with
  | Held _ (Inserted m) => Some m
  | _ => None
  end.

(** The same discipline seen from one thread: its next position after
    the call [c], [None] when the call is not allowed where it stands. *)
Definition phase_step (ph : option phase) (c : call) (x : ans c) : option (option phase) :=
  match c return ans c -> option (option phase) with
  | c_lock => fun _ =>
      match ph with None => Some (Some Locked) | _ => None end
  | c_unlock => fun _ =>
      match ph with Some Closed => Some None | _ => None end
  | c_log_open => fun is_open =>
      match ph with
      | Some Locked => Some (Some (if is_open then Opened else Closed))
      | _ => None
      end
  | c_log_insert m => fun _ =>
      match ph with Some Opened => Some (Some (Inserted m)) | _ => None end
  | c_log_endl => fun _ =>
      match ph with Some (Inserted _) => Some (Some Ended) | _ => None end
  | c_log_close => fun _ =>
      match ph with Some Ended => Some (Some Closed) | _ => None end
  | _ => fun _ => Some ph
  end x.

(** The program keeps the discipline from the position [ph] on,
    whatever the operating system answers, and ends outside the
    critical section. *)
Fixpoint serial (ph : option phase) (p : prog unit) : Prop :=
  match p with
  | Vis c k =>
      forall x, match phase_step ph c x with
                | Some ph' => serial ph' (k x)
                | None => False
                end
  | Undefined => True
  | _ => ph = None
  end.

(** [P] holds of the program and of all it can become. *)
Fixpoint always (P : prog unit -> Prop) (p : prog unit) : Prop :=
  P p /\
  match p with
  | Vis c k => forall x, always P (k x)
  | _ => True
  end.

(** No exception has left the thread. *)
Definition alive (p : prog unit) : Prop :=
  match p with
  | Throw _ => False
  | _ => True
  end.

(** The thread has not ended and does not wait for the mutex. *)
Definition looping (p : prog unit) : Prop :=
  match p with
  | Running => True
  | Vis c_lock _ => False
  | Vis _ _ => True
  | _ => False
  end.

(** ** Runs of composed programs *)

(** What follows a first part that has run from call [i]. *)
Definition then_run {A B : Type} (o : oracle) (i : nat)
    (first : list event * outcome A) (f : A -> prog B) : list event * outcome B :=
  match first with
  | (tr, Returned a) =>
      let '(tr', out) := run o (i + length tr) (f a) in ((tr ++ tr')%list, out)
  | (tr, Threw e) => (tr, Threw e)
  | (tr, Undef) => (tr, Undef)
  | (tr, StillRunning) => (tr, StillRunning)
  end.

(** The handler runs after a first part that threw. *)
Definition catch_run {R : Type} (o : oracle) (i : nat)
    (first : list event * outcome R) (h : exn -> prog R) : list event * outcome R :=
  match first with
  | (tr, Threw e) =>
      let '(tr', out) := run o (i + length tr) (h e) in ((tr ++ tr')%list, out)
  | other => other
  end.

Definition trace_of {R : Type} (o : oracle) (p : prog R) : list event := fst (run o 0 p).
Definition result_of {R : Type} (o : oracle) (p : prog R) : outcome R := snd (run o 0 p).

(** ** Shape of a timestamp *)

Definition is_digit (c : ascii) : bool :=
  match digit_value c with
  | Some _ => true
  | None => false
  end.

(** [s] follows the pattern [pat], in which [d] stands for any digit
    and every other character for itself. *)
Fixpoint matches_pattern (pat s : string) : bool :=
  match pat, s with
  | EmptyString, EmptyString => true
  | String p pat', String c s' =>
      (if Ascii.eqb p "d" then is_digit c else Ascii.eqb p c) && matches_pattern pat' s'
  | _, _ => false
  end.

(** A [struct tm] of a year with four digits. *)
Definition valid_tm (t : tm) : bool :=
  (1000 <=? tm_year t + 1900) && (tm_year t + 1900 <=? 9999) &&
  (0 <=? tm_mon t) && (tm_mon t <=? 11) &&
  (1 <=? tm_mday t) && (tm_mday t <=? 31) &&
  (0 <=? tm_hour t) && (tm_hour t <=? 23) &&
  (0 <=? tm_min t) && (tm_min t <=? 59) &&
  (0 <=? tm_sec t) && (tm_sec t <=? 60).

(** The characters of [s] from position [from] on. *)
Fixpoint drop_chars (from : nat) (s : string) : string :=
  match from, s with
  | S n, String _ s' => drop_chars n s'
  | _, _ => s
  end.

(** The number written in the [len] characters of [s] that start at
    position [from]. *)
Definition number_at (from len : nat) (s : string) : option Z :=
  leading_digits None (prefix_of len (drop_chars from s)).

(** ** Sample environments *)

(** Every call succeeds; 2023-11-14 22:13:20.123 on the clock. *)
Definition os_ok : oracle := fun _ c =>
  match c return ans c with
  | c_socket => 3
  | c_bind _ _ => 0
  | c_listen _ _ => 0
  | c_accept _ => 4
  | c_read _ _ => ReadData "2023-11-14 22:13:20.123 alice"
  | c_inet_pton _ => 1
  | c_connect _ _ _ => 0
  | c_send _ _ len => Z.of_nat len
  | c_now => 1700000000123456789
  | c_localtime _ => mk_tm 123 10 14 22 13 20
  | c_log_open => true
  | _ => tt
  end.

(** As [os_ok], with the answer [r] to the [k]-th call when it is [c_bind],
    [c_listen], [c_connect] or [c_send]. *)
Definition os_failing (k : nat) (r : Z) : oracle := fun i c =>
  match c return ans c -> ans c with
  | c_bind _ _ | c_listen _ _ | c_connect _ _ _ | c_send _ _ _ =>
      fun dflt => if Nat.eqb i k then r else dflt
  | _ => fun dflt => dflt
  end (os_ok i c).

Definition alice : Client.t := Client.mk "alice" 8080 5.

(** As [os_ok], with [r] for every [read]. *)
Definition os_reading (r : read_result) : oracle := fun i c =>
  match c return ans c -> ans c with
  | c_read _ _ => fun _ => r
  | _ => fun dflt => dflt
  end (os_ok i c).

(** As [os_ok], but log.txt cannot be opened. *)
Definition os_log_unwritable : oracle := fun i c =>
  match c return ans c -> ans c with
  | c_log_open => fun _ => false
  | _ => fun dflt => dflt
  end (os_ok i c).

(** No character of [s] is NUL. *)
Fixpoint nul_free (s : string) : bool :=
  match s with
  | EmptyString => true
  | String c rest => negb (Ascii.eqb c NUL) && nul_free rest
  end.

(** A name as the specification has it: not empty, of printable
    characters other than the space. *)
Fixpoint all_printable (s : string) : bool :=
  match s with
  | EmptyString => true
  | String c rest =>
      let n := nat_of_ascii c in
      Nat.leb 33 n && Nat.leb n 126 && all_printable rest
  end.

Definition valid_name (name : string) : bool :=
  negb (String.eqb name "") && all_printable name.

(** A client whose message fills the read buffer: 24 characters of
    timestamp and space, and a name of 1000. *)
Definition long_name_client : Client.t := Client.mk (fill 1000 "a") 8080 5.

(** Every [accept] of the trace is followed at once by what the loop
    owes it: the message on standard error when it failed, the handler
    thread for the new descriptor when it succeeded. *)
Fixpoint accepts_handled (tr : list event) : bool :=
  match tr with
  | [] => true
  | Ev (c_accept _) r :: rest =>
      match rest with
      | Ev (c_cerr l) _ :: _ => (r <? 0) && String.eqb l "Failed to accept connection"
      | Ev (c_thread_detach fd) _ :: _ => (0 <=? r) && (fd =? r)
      | _ => false
      end && accepts_handled rest
  | _ :: rest => accepts_handled rest
  end.

Definition count_calls (f : call -> bool) (tr : list event) : nat :=
  length (List.filter (is_call f) tr).

(** ** Lines on standard error *)

Definition read_failed : string := "Client handling error: Failed to read from client socket".
Definition open_failed : string := "Client handling error: Failed to open log file".
Definition create_failed : string := "Server error: Failed to create socket".
Definition bind_failed : string := "Server error: Failed to bind".
Definition listen_failed : string := "Server error: Failed to listen".

(** ** Ends of the client's rounds *)

(** How a round ends: it returns without a failure in its trace, or it
    throws, and then its trace ends with the failure and the deleter of
    the socket handle. *)
Inductive round_end : list event * outcome unit -> Prop :=
| round_done tr u :
    no_failure tr = true -> round_end (tr, Returned u)
| round_failed pre e p x m :
    no_failure pre = true -> is_failure e = true ->
    round_end ((pre ++ [e; Ev (c_close_ptr p) x])%list, Threw (SocketException m)).

(** How [n] rounds end: still looping without a failure, or stopped by
    the first one. *)
Inductive rounds_end : list event * outcome unit -> Prop :=
| rounds_on tr :
    no_failure tr = true -> rounds_end (tr, StillRunning)
| rounds_failed pre e p x m :
    no_failure pre = true -> is_failure e = true ->
    rounds_end ((pre ++ [e; Ev (c_close_ptr p) x])%list, Threw (SocketException m)).

(** ** The invariant of the pool *)

(** log.txt holds, after what it held at the start, the lines of the
    messages inserted so far; the last of them is still without its
    newline while its writer stands between insert and endl. *)
Definition log_matches (log0 : string) (s : cs_state) (log : string)
    (h : list (nat * event)) : Prop :=
  match pending s with
  | None =>
      log = log0 +:+ lines_text (appended h) /\
      endl_count h = length (appended h)
  | Some m =>
      exists ms, appended h = (ms ++ [m])%list /\
                 log = log0 +:+ lines_text ms +:+ m /\
                 endl_count h = length ms
  end.

Record pool_inv (log0 : string) (st : pool) (s : cs_state) : Prop := mk_pool_inv {
  inv_scan : cs_scan (history st) = Some s;
  inv_mutex : mutex st = holder s;
  inv_threads : forall tid p, threads st !! tid = Some p -> serial (phase_of s tid) p;
  inv_holder : forall t, holder s = Some t -> (t < length (threads st))%nat;
  inv_log : log_matches log0 s (log_txt st) (history st)
}.

(** Two clients served at the same time: both handlers have read
    before either takes the mutex, and the second asks for it while the
    first is between insert and endl. *)
Definition answer_accept (fd : Z) : forall c : call, ans c := fun c =>
  match c return ans c -> ans c with
  | c_accept _ => fun _ => fd
  | _ => fun dflt => dflt
  end (os_ok 0%nat c).

Definition answer_read (r : read_result) : forall c : call, ans c :=
  os_reading r 0%nat.

Definition two_clients : schedule :=
  [ (0, answer_accept 4); (0, os_ok 0); (0, answer_accept 5); (0, os_ok 0);
    (1, answer_read (ReadData "one")); (2, answer_read (ReadData "two"));
    (1, os_ok 0); (2, os_ok 0); (1, os_ok 0); (1, os_ok 0); (2, os_ok 0);
    (1, os_ok 0); (1, os_ok 0); (2, os_ok 0); (1, os_ok 0);
    (2, os_ok 0); (2, os_ok 0); (2, os_ok 0); (2, os_ok 0); (2, os_ok 0);
    (2, os_ok 0); (1, os_ok 0) ]%nat.

(** ** Dispatch of [main] *)

Definition usage_error : string :=
  "Error: Usage: server <port> or client <name> <port> <period>".

Definition arguments_error : string := "Error: Invalid arguments".

(** [mode == "server" && argc == 3]. *)
Definition server_mode (argv : list string) : bool :=
  String.eqb (argv_at argv 1) "server" && (Z.of_nat (length argv) =? 3).

(** [mode == "client" && argc == 5]. *)
Definition client_mode (argv : list string) : bool :=
  String.eqb (argv_at argv 1) "client" && (Z.of_nat (length argv) =? 5).

(** ** Arguments of [stoi] *)

Fixpoint all_spaces (s : string) : bool :=
  match s with
  | EmptyString => true
  | String c rest => isspace c && all_spaces rest
  end.

Definition starts_with_digit (s : string) : bool :=
  match s with
  | EmptyString => false
  | String c _ => is_digit c
  end.

(** ** Calls of the accept loop *)


(** ** Calls of the handler *)

Definition is_read (c : call) : bool :=
  match c with
  | c_read _ _ => true
  | _ => false
  end.

(** A call on the network other than [read] and [close]. *)
Definition is_network_other (c : call) : bool :=
  match c with
  | c_socket | c_bind _ _ | c_listen _ _ | c_accept _ | c_connect _ _ _
  | c_send _ _ _ | c_thread_detach _ => true
  | _ => false
  end.

(** ** Sockets and pace of the client *)

(** The socket handle (the [unique_ptr]) of the client, followed along
    a trace by the descriptor it points to: [socket] needs that no
    handle lives, [connect] and [send] use the descriptor of the living
    one, and the deleter, [close] called with the pointer, ends it.
    [None] when a call breaks this. *)
Definition handle_step (s : option (option Z)) (e : event) : option (option Z) :=
  match s with
  | None => None
  | Some held =>
      match e with
      | Ev c_socket r =>
          match held with None => Some (Some r) | Some _ => None end
      | Ev (c_connect fd _ _) _ | Ev (c_send fd _ _) _ =>
          match held with
          | Some r => if fd =? r then Some held else None
          | None => None
          end
      | Ev (c_close_ptr p) _ =>
          match held with
          | Some r => if deref p =? r then Some None else None
          | None => None
          end
      | _ => Some held
      end
  end.

Definition handle_scan (tr : list event) : option (option Z) :=
  fold_left handle_step tr (Some None).

(** The descriptors that [socket] returned without error, oldest first. *)
Definition created (tr : list event) : list Z :=
  flat_map (fun e => match e with
                     | Ev c_socket r => if r <? 0 then [] else [r]
                     | _ => []
                     end) tr.

(** The descriptors open after a call: [socket] adds the one it
    returns, [close] of a descriptor takes it away. *)
Definition open_step (held : list Z) (e : event) : list Z :=
  match e with
  | Ev c_socket r => if r <? 0 then held else (held ++ [r])%list
  | Ev (c_close fd) _ => List.filter (fun r => negb (r =? fd)) held
  | _ => held
  end.

(** The descriptors the trace leaves open. *)
Definition left_open (tr : list event) : list Z := fold_left open_step tr [].

(** Has the client slept since its last send?  A send needs it, and
    every sleep must last [period].  [None] when a call breaks this. *)
Definition pace_step (period : Z) (s : option bool) (e : event) : option bool :=
  match s with
  | None => None
  | Some slept =>
      match ev_call e with
      | c_send _ _ _ => if slept then Some false else None
      | c_sleep d => if d =? period then Some true else None
      | _ => Some slept
      end
  end.

Definition pace_scan (period : Z) (tr : list event) : option bool :=
  fold_left (pace_step period) tr (Some true).

(** ** Threads and connections *)

(** The thread has ended, or its loop was cut. *)
Definition finished (p : prog unit) : Prop :=
  match p with
  | Ret _ | Throw _ | Running => True
  | _ => False
  end.

(** The next call of the thread is on log.txt or releases the mutex. *)
Definition next_in_critical_section (p : prog unit) : Prop :=
  match p with
  | Vis c _ =>
      match c with
      | c_log_open | c_log_insert _ | c_log_endl | c_log_close | c_unlock => True
      | _ => False
      end
  | _ => False
  end.

(** The descriptors that [accept] gave without error, in the order of
    the history. *)
Definition accepted (h : list (nat * event)) : list Z :=
  flat_map (fun te => match snd te with
                      | Ev (c_accept _) r => if r <? 0 then [] else [r]
                      | _ => []
                      end) h.

(** The descriptors for which a handler thread was created. *)
Definition detached (h : list (nat * event)) : list Z :=
  flat_map (fun te => match ev_call (snd te) with
                      | c_thread_detach fd => [fd]
                      | _ => []
                      end) h.

Definition is_accept_or_detach (c : call) : bool :=
  match c with
  | c_accept _ | c_thread_detach _ => true
  | _ => false
  end.

(** The accepted descriptor the loop has still to hand over. *)
Definition owed (pend : option Z) : list Z :=
  match pend with
  | Some r => if r <? 0 then [] else [r]
  | None => []
  end.

(** The accept loop seen call by call: [pend] is the result of an
    [accept] not yet answered.  [None] for a call the loop does not
    make where it stands. *)
Definition loop_step (pend : option Z) (c : call) (x : ans c) : option (option Z) :=
  match c return ans c -> option (option Z) with
  | c_accept _ => fun r =>
      match pend with None => Some (Some r) | Some _ => None end
  | c_cerr _ => fun _ =>
      match pend with
      | Some r => if r <? 0 then Some None else None
      | None => None
      end
  | c_thread_detach fd => fun _ =>
      match pend with
      | Some r => if ((0 <=? r) && (fd =? r))%bool then Some None else None
      | None => None
      end
  | _ => fun _ => None
  end x.

(** The program is the accept loop from the position [pend] on. *)
Fixpoint loop_shape (pend : option Z) (p : prog unit) : Prop :=
  match p with
  | Vis c k =>
      forall x, match loop_step pend c x with
                | Some pend' => loop_shape pend' (k x)
                | None => False
                end
  | Running => pend = None
  | _ => False
  end.

(** The next call of the thread neither accepts nor creates a thread. *)
Definition no_accept_or_detach (p : prog unit) : Prop :=
  match p with
  | Vis c _ => is_accept_or_detach c = false
  | _ => True
  end.

Record loop_inv (st : pool) (pend : option Z) : Prop := mk_loop_inv {
  loop_main : exists p, threads st !! 0%nat = Some p /\ loop_shape pend p;
  loop_handlers : forall j p, (1 <= j)%nat -> threads st !! j = Some p ->
                              always no_accept_or_detach p;
  loop_accepted : accepted (history st) = (detached (history st) ++ owed pend)%list;
  loop_threads : length (threads st) = S (length (detached (history st)));
  loop_history : forallb (fun te => Nat.eqb (fst te) 0
                                    || negb (is_accept_or_detach (ev_call (snd te))))
                   (history st) = true
}.

(** The accept loop alone is scheduled and accepts the descriptors
    [fds] one after the other. *)
Definition accepting (fds : list Z) : schedule :=
  flat_map (fun fd => [(0%nat, answer_accept fd); (0%nat, os_ok 0%nat)]) fds.

Definition is_send (c : call) : bool :=
  match c with
  | c_send _ _ _ => true
  | _ => false
  end.

Definition is_socket (c : call) : bool :=
  match c with
  | c_socket => true
  | _ => false
  end.

(** * Properties *)

Arguments put_time : simpl never.
Arguments dec : simpl never.
Arguments pad_left : simpl never.
Arguments Server.bytes_read_of : simpl never.
Arguments Server.buffer_after : simpl never.

(** ** Text *)

Lemma append_cons (c : ascii) (s1 s2 : string) :
  String c s1 +:+ s2 = String c (s1 +:+ s2).
Proof. reflexivity. Qed.

Lemma append_assoc (s1 s2 s3 : string) :
  (s1 +:+ s2) +:+ s3 = s1 +:+ (s2 +:+ s3).
Proof.
  induction s1 as [|c s1 IH]; [reflexivity|].
  rewrite !append_cons, IH. reflexivity.
Qed.

Lemma append_nil_r (s : string) : s +:+ "" = s.
Proof.
  induction s as [|c s IH]; [reflexivity|].
  rewrite append_cons, IH. reflexivity.
Qed.

Lemma length_append (s1 s2 : string) :
  String.length (s1 +:+ s2) = (String.length s1 + String.length s2)%nat.
Proof.
  induction s1 as [|c s1 IH]; [reflexivity|].
  rewrite append_cons. cbn. rewrite IH. reflexivity.
Qed.

(** ** Runs of composed programs *)

Section RunLaws.

Context {A B : Type}.
Variable o : oracle.

Lemma run_bind (p : prog A) (f : A -> prog B) (i : nat) :
  run o i (bind p f) = then_run o i (run o i p) f.
Proof.
  revert i.
  induction p as [a|e| | |c k IH]; intros i; simpl.
  - rewrite Nat.add_0_r. destruct (run o i (f a)); reflexivity.
  - reflexivity.
  - reflexivity.
  - reflexivity.
  - rewrite IH. destruct (run o (S i) (k (o i c))) as [tr [a|e| |]]; simpl; try reflexivity.
    rewrite Nat.add_succ_r. destruct (run o (S (i + length tr)) (f a)); reflexivity.
Qed.

Lemma run_try_catch (p : prog A) (h : exn -> prog A) (i : nat) :
  run o i (try_catch p h) = catch_run o i (run o i p) h.
Proof.
  revert i.
  induction p as [a|e| | |c k IH]; intros i; simpl; try reflexivity.
  - rewrite Nat.add_0_r. destruct (run o i (h e)); reflexivity.
  - rewrite IH. destruct (run o (S i) (k (o i c))) as [tr [a|e| |]]; simpl; try reflexivity.
    rewrite Nat.add_succ_r. destruct (run o (S (i + length tr)) (h e)); reflexivity.
Qed.

(** A scope that is never left never runs its destructor. *)
Lemma run_finally_running (p : prog A) (cleanup : prog unit) (i : nat) :
  snd (run o i p) = StillRunning ->
  run o i (finally p cleanup) = run o i p.
Proof.
  revert i.
  induction p as [a|e| | |c k IH]; intros i; simpl; try discriminate; try reflexivity.
  intros H. specialize (IH (o i c) (S i)).
  destruct (run o (S i) (k (o i c))) as [tr out]. simpl in *.
  rewrite (IH H). reflexivity.
Qed.

End RunLaws.

(** ** The client loop *)

Lemma no_failure_app (tr1 tr2 : list event) :
  no_failure (tr1 ++ tr2) = (no_failure tr1 && no_failure tr2)%bool.
Proof. unfold no_failure. apply forallb_app. Qed.

Lemma no_failure_existsb (tr : list event) :
  existsb is_failure tr = negb (no_failure tr).
Proof.
  induction tr as [|e tr IH]; simpl; [reflexivity|].
  rewrite IH. destruct (is_failure e); reflexivity.
Qed.

Lemma stops_after_quiet_prefix (pre rest : list event) :
  no_failure pre = true ->
  stops_at_first_failure (pre ++ rest) = stops_at_first_failure rest.
Proof.
  induction pre as [|e pre IH]; simpl; [reflexivity|].
  intros H. apply andb_prop in H as [He Hpre].
  destruct (is_failure e); [discriminate|]. auto.
Qed.

Lemma round_run (o : oracle) (i : nat) (this : Client.t) :
  round_end (run o i (Client.round this)).
Proof.
  unfold Client.round, Client.CreateSocket, Client.ConnectToServer,
    Client.SendMessage, Client.GetCurrentTimestamp, on_unwind.
  simpl.
  destruct (o i c_socket <? 0) eqn:Hs; simpl.
  { apply (round_failed []); simpl; auto. }
  destruct (o (S i) (c_inet_pton "127.0.0.1") <=? 0) eqn:Hp; simpl.
  { apply (round_failed [Ev c_socket _]); simpl; rewrite ?Hs; auto. }
  destruct (o (S (S i)) (c_connect _ _ _) <? 0) eqn:Hc; simpl.
  { apply (round_failed [Ev c_socket _; Ev (c_inet_pton _) _]); simpl; rewrite ?Hs, ?Hp; auto. }
  match goal with |- context [Ev (c_send ?a ?b ?c) ?r] => destruct (r <? 0) eqn:Hd end; simpl.
  { apply (round_failed [Ev c_socket _; Ev (c_inet_pton _) _; Ev (c_connect _ _ _) _;
                         Ev c_now _; Ev (c_localtime _) _]);
      simpl; rewrite ?Hs, ?Hp, ?Hc; auto. }
  apply round_done. simpl. rewrite Hs, Hp, Hc, Hd. reflexivity.
Qed.

Lemma rounds_run (o : oracle) (this : Client.t) (n : nat) :
  forall i, rounds_end (run o i (Client.rounds n this)).
Proof.
  induction n as [|n IH]; intros i; cbn [Client.rounds].
  - apply rounds_on. reflexivity.
  - rewrite run_bind.
    destruct (round_run o i this) as [tr u Htr | pre e fd x m Hpre He]; simpl.
    + specialize (IH (i + length tr)%nat).
      destruct IH as [tr' Htr' | pre e fd x m Hpre He].
      * apply rounds_on. rewrite no_failure_app, Htr, Htr'. reflexivity.
      * rewrite app_assoc. apply rounds_failed; [|assumption].
        rewrite no_failure_app, Htr, Hpre. reflexivity.
    + apply rounds_failed; assumption.
Qed.

(** Rounds that have thrown are not followed by others: a larger bound
    on the loop gives the same run. *)
Lemma rounds_stable (o : oracle) (this : Client.t) (n m : nat) :
  forall i e,
    snd (run o i (Client.rounds n this)) = Threw e ->
    run o i (Client.rounds (n + m) this) = run o i (Client.rounds n this).
Proof.
  induction n as [|n IH]; intros i e; [discriminate|].
  cbn [Client.rounds Nat.add]. rewrite !run_bind.
  destruct (run o i (Client.round this)) as [tr [u|e'| |]]; cbn [then_run]; try reflexivity.
  intros H. rewrite (IH (i + length tr)%nat e); [reflexivity|].
  destruct (run o (i + length tr) (Client.rounds n this)). exact H.
Qed.

(** C3.  In every run of the client's [Start], whatever the operating
    system answers and however many rounds are observed, no socket is
    created, no connection attempted and nothing sent after the first
    failed socket creation, connect or send; the loop has ended (Start
    has returned) exactly when the trace holds such a failure, and is
    still looping otherwise; and once it has ended, observing more
    rounds shows the same run, with no later attempt. *)
Theorem client_first_failure_ends_loop (o : oracle) (n m : nat) (this : Client.t) :
  stops_at_first_failure (trace_of o (Client.Start n this)) = true /\
  result_of o (Client.Start n this) =
    (if existsb is_failure (trace_of o (Client.Start n this))
     then Returned tt else StillRunning) /\
  run o 0 (Client.Start (n + m) this) =
    (if existsb is_failure (trace_of o (Client.Start n this))
     then run o 0 (Client.Start n this) else run o 0 (Client.Start (n + m) this)).
Proof.
  unfold trace_of, result_of, Client.Start.
  rewrite !run_try_catch.
  pose proof (rounds_stable o this n m 0%nat) as Hstable.
  destruct (rounds_run o this n 0%nat) as [tr Htr | pre e fd x msg Hpre He];
    cbn [catch_run fst snd].
  - rewrite no_failure_existsb, Htr. cbn [negb]. split; [|split; reflexivity].
    rewrite <- (app_nil_r tr), stops_after_quiet_prefix by assumption. reflexivity.
  - rewrite (Hstable _ eq_refl). simpl.
    rewrite <- !app_assoc. simpl.
    split; [|split].
    + rewrite stops_after_quiet_prefix by assumption. simpl. rewrite He. reflexivity.
    + rewrite existsb_app. simpl. rewrite He, orb_true_r.
      match goal with |- Returned ?u = _ => destruct u end. reflexivity.
    + rewrite existsb_app. simpl. rewrite He, orb_true_r. reflexivity.
Qed.

Lemma unit_answer (u : unit) : u = tt.
Proof. destruct u. reflexivity. Qed.

(** C4.  A round of the client loop in which no call fails makes, in
    this order: socket creation, connect to 127.0.0.1:port, reading of
    the clock for the timestamp, send of "<timestamp> <name>" with its
    length, sleep of the period.  The connection is not closed before
    the sleep, and it is not closed after it either: when the socket
    handle ends with the loop body, its deleter calls [close] with the
    pointer it owns, so the descriptor that [socket] returned is never
    given to [close]. *)
Theorem client_round_order (o : oracle) (i : nat) (this : Client.t) :
  let sock := o i c_socket in
  let now := o (3 + i)%nat c_now in
  let local := o (4 + i)%nat (c_localtime (Client.to_time_t now)) in
  let message := Client.stamp now local +:+ " " +:+ Client.name_ this in
  no_failure (fst (run o i (Client.round this))) = true ->
  map ev_call (fst (run o i (Client.round this))) =
    [ c_socket;
      c_inet_pton "127.0.0.1";
      c_connect sock "127.0.0.1" (Client.port_ this);
      c_now;
      c_localtime (Client.to_time_t now);
      c_send sock message (String.length message);
      c_sleep (Client.period_ this);
      c_close_ptr (new_int sock) ] /\
  snd (run o i (Client.round this)) = Returned tt /\
  existsb (is_call is_close) (fst (run o i (Client.round this))) = false.
Proof.
  unfold Client.round, Client.CreateSocket, Client.ConnectToServer,
    Client.SendMessage, Client.GetCurrentTimestamp, on_unwind.
  simpl.
  destruct (o i c_socket <? 0) eqn:Hs; simpl.
  { rewrite Hs. discriminate. }
  destruct (o (S i) (c_inet_pton "127.0.0.1") <=? 0) eqn:Hp; simpl.
  { rewrite Hs, Hp. discriminate. }
  destruct (o (S (S i)) (c_connect _ _ _) <? 0) eqn:Hc; simpl.
  { rewrite Hs, Hp, Hc. discriminate. }
  match goal with |- context [Ev (c_send ?a ?b ?c) ?r] => destruct (r <? 0) eqn:Hd end; simpl.
  { rewrite Hs, Hp, Hc, Hd. discriminate. }
  intros _. split; [reflexivity|]. split; [|reflexivity].
  f_equal. apply unit_answer.
Qed.

Lemma client_round_order_witness :
  no_failure (fst (run os_ok 0 (Client.round alice))) = true /\
  map ev_call (fst (run os_ok 0 (Client.round alice))) =
    [ c_socket;
      c_inet_pton "127.0.0.1";
      c_connect 3 "127.0.0.1" 8080;
      c_now;
      c_localtime 1700000000;
      c_send 3 "2023-11-14 22:13:20.123 alice" 29;
      c_sleep 5;
      c_close_ptr (new_int 3) ] /\
  existsb (is_call is_close) (fst (run os_ok 0 (Client.round alice))) = false.
Proof.
  split; [reflexivity|].
  pose proof (client_round_order os_ok 0 alice eq_refl) as (Hcalls & _ & Hclose).
  split; [exact Hcalls | exact Hclose].
Defined.

(** ** The timestamp *)

(** A property of the integers from [lo] to [hi], checked one by one. *)
Lemma forall_range (P : Z -> bool) (lo hi : Z) :
  forallb (fun k => P (lo + Z.of_nat k)) (seq 0 (Z.to_nat (hi - lo + 1))) = true ->
  forall z, lo <= z <= hi -> P z = true.
Proof.
  intros H z Hz.
  rewrite forallb_forall in H.
  specialize (H (Z.to_nat (z - lo))).
  rewrite Z2Nat.id in H by lia.
  replace (lo + (z - lo)) with z in H by lia.
  apply H. apply in_seq. lia.
Qed.

Lemma matches_pattern_app (p1 p2 s1 s2 : string) :
  matches_pattern p1 s1 = true -> matches_pattern p2 s2 = true ->
  matches_pattern (p1 +:+ p2) (s1 +:+ s2) = true.
Proof.
  revert s1. induction p1 as [|p p1 IH]; intros [|c s1]; cbn; try discriminate.
  - auto.
  - intros H1 H2. apply andb_prop in H1 as [Hc H1].
    change (String p p1 +:+ p2) with (String p (p1 +:+ p2)).
    change (String c s1 +:+ s2) with (String c (s1 +:+ s2)).
    cbn. rewrite Hc. cbn. auto.
Qed.

Lemma year_shape (y : Z) :
  1000 <= y <= 9999 -> matches_pattern "dddd" (dec y) = true.
Proof.
  intros H.
  apply (forall_range (fun y => matches_pattern "dddd" (dec y)) 1000 9999); [|lia].
  vm_compute. reflexivity.
Qed.

Lemma two_digits_shape (n : Z) :
  0 <= n <= 99 -> matches_pattern "dd" (two_digits n) = true.
Proof.
  intros H.
  apply (forall_range (fun n => matches_pattern "dd" (two_digits n)) 0 99); [|lia].
  vm_compute. reflexivity.
Qed.

(** The milliseconds printed with [setfill('0')] and [setw(3)] are
    three digits that read back as the number. *)
Lemma ms_shape (ms : Z) :
  0 <= ms <= 999 ->
  (matches_pattern "ddd" (pad_left 3 "0" (dec ms)) &&
   match leading_digits None (pad_left 3 "0" (dec ms)) with
   | Some v => v =? ms
   | None => false
   end)%bool = true.
Proof.
  intros H.
  apply (forall_range
           (fun ms => (matches_pattern "ddd" (pad_left 3 "0" (dec ms)) &&
                       match leading_digits None (pad_left 3 "0" (dec ms)) with
                       | Some v => v =? ms
                       | None => false
                       end)%bool) 0 999); [|lia].
  vm_compute. reflexivity.
Qed.

Lemma put_time_shape (t : tm) :
  valid_tm t = true ->
  matches_pattern "dddd-dd-dd dd:dd:dd" (put_time t) = true.
Proof.
  unfold valid_tm. intros H.
  repeat (apply andb_prop in H as [H ?]).
  unfold put_time.
  change "dddd-dd-dd dd:dd:dd" with
    ("dddd" +:+ "-" +:+ "dd" +:+ "-" +:+ "dd" +:+ " " +:+ "dd" +:+ ":" +:+ "dd" +:+ ":" +:+ "dd").
  repeat (apply matches_pattern_app;
          [first [ reflexivity | apply year_shape; lia | apply two_digits_shape; lia ] | ]).
  apply two_digits_shape; lia.
Qed.

Lemma drop_chars_app (s1 s2 : string) :
  drop_chars (String.length s1) (s1 +:+ s2) = s2.
Proof.
  induction s1 as [|c s1 IH].
  - destruct s2; reflexivity.
  - change (String c s1 +:+ s2) with (String c (s1 +:+ s2)). exact IH.
Qed.

Lemma matches_pattern_length (pat s : string) :
  matches_pattern pat s = true -> String.length s = String.length pat.
Proof.
  revert s. induction pat as [|p pat IH]; intros [|c s]; cbn; try discriminate; auto.
  intros H. apply andb_prop in H as [_ H]. f_equal. auto.
Qed.

Lemma ms_count_range (now : Z) : 0 <= now -> 0 <= Client.ms_count now < 1000.
Proof.
  intros Hnow. unfold Client.ms_count. rewrite Z.rem_mod_nonneg.
  - apply Z.mod_pos_bound. lia.
  - apply Z.quot_pos; lia.
  - lia.
Qed.

Lemma stamp_shape (now : Z) (local : tm) :
  0 <= now -> valid_tm local = true ->
  matches_pattern "dddd-dd-dd dd:dd:dd.ddd" (Client.stamp now local) = true.
Proof.
  intros Hnow Hlocal.
  pose proof (ms_shape (Client.ms_count now) ltac:(pose proof (ms_count_range now Hnow); lia))
    as Hshape.
  apply andb_prop in Hshape as [Hshape _].
  unfold Client.stamp.
  change "dddd-dd-dd dd:dd:dd.ddd" with ("dddd-dd-dd dd:dd:dd" +:+ "." +:+ "ddd").
  apply matches_pattern_app; [exact (put_time_shape local Hlocal)|].
  apply (matches_pattern_app "." "ddd" "."); [reflexivity | exact Hshape].
Qed.

(** The numbers that [put_time] and [setw] print read back as they are. *)
Lemma year_reads_back (y : Z) :
  1000 <= y <= 9999 -> leading_digits None (dec y) = Some y.
Proof.
  intros H.
  assert (Hb : match leading_digits None (dec y) with
               | Some v => v =? y
               | None => false
               end = true).
  { apply (forall_range (fun y => match leading_digits None (dec y) with
                                  | Some v => v =? y
                                  | None => false
                                  end) 1000 9999); [|lia].
    vm_compute. reflexivity. }
  destruct (leading_digits None (dec y)) as [v|]; [|discriminate].
  apply Z.eqb_eq in Hb. congruence.
Qed.

Lemma two_digits_read_back (n : Z) :
  0 <= n <= 99 -> leading_digits None (two_digits n) = Some n.
Proof.
  intros H.
  assert (Hb : match leading_digits None (two_digits n) with
               | Some v => v =? n
               | None => false
               end = true).
  { apply (forall_range (fun n => match leading_digits None (two_digits n) with
                                  | Some v => v =? n
                                  | None => false
                                  end) 0 99); [|lia].
    vm_compute. reflexivity. }
  destruct (leading_digits None (two_digits n)) as [v|]; [|discriminate].
  apply Z.eqb_eq in Hb. congruence.
Qed.

(** Seven fields of 4, 2, 2, 2, 2, 2 and 3 characters, laid out as a
    timestamp, are found again at their positions. *)
Lemma fields_at (Y M D h m s ms : string) :
  String.length Y = 4%nat -> String.length M = 2%nat -> String.length D = 2%nat ->
  String.length h = 2%nat -> String.length m = 2%nat -> String.length s = 2%nat ->
  String.length ms = 3%nat ->
  let text := (Y +:+ "-" +:+ M +:+ "-" +:+ D +:+ " " +:+ h +:+ ":" +:+ m +:+ ":" +:+ s)
              +:+ "." +:+ ms in
  number_at 0 4 text = leading_digits None Y /\
  number_at 5 2 text = leading_digits None M /\
  number_at 8 2 text = leading_digits None D /\
  number_at 11 2 text = leading_digits None h /\
  number_at 14 2 text = leading_digits None m /\
  number_at 17 2 text = leading_digits None s /\
  number_at 20 3 text = leading_digits None ms.
Proof.
  destruct Y as [|? [|? [|? [|? [|]]]]]; try discriminate.
  destruct M as [|? [|? [|]]]; try discriminate.
  destruct D as [|? [|? [|]]]; try discriminate.
  destruct h as [|? [|? [|]]]; try discriminate.
  destruct m as [|? [|? [|]]]; try discriminate.
  destruct s as [|? [|? [|]]]; try discriminate.
  destruct ms as [|? [|? [|? [|]]]]; try discriminate.
  intros _ _ _ _ _ _ _. repeat split; reflexivity.
Qed.

(** C6.  For a clock reading [now] not before the epoch and a local
    time of a four-digit year, [GetCurrentTimestamp] reads the clock
    once, asks [localtime] for the whole seconds of that reading, and
    returns a text of the form YYYY-MM-DD HH:MM:SS.mmm in which each
    field is the number it stands for: the year, the month counted
    from 1, the day, the hour, the minute and the second of the local
    time, each at its place and padded with zeros, and then the
    milliseconds [ms] in three digits, with 0 <= ms < 1000.  [ms] is
    what is left of that same reading, in milliseconds, beyond the
    whole seconds handed to [localtime]. *)
Theorem timestamp_format (o : oracle) (i : nat) :
  let now := o i c_now in
  let local := o (S i) (c_localtime (Client.to_time_t now)) in
  0 <= now ->
  valid_tm local = true ->
  run o i Client.GetCurrentTimestamp =
    ([Ev c_now now; Ev (c_localtime (Client.to_time_t now)) local],
     Returned (Client.stamp now local)) /\
  matches_pattern "dddd-dd-dd dd:dd:dd.ddd" (Client.stamp now local) = true /\
  number_at 0 4 (Client.stamp now local) = Some (tm_year local + 1900) /\
  number_at 5 2 (Client.stamp now local) = Some (tm_mon local + 1) /\
  number_at 8 2 (Client.stamp now local) = Some (tm_mday local) /\
  number_at 11 2 (Client.stamp now local) = Some (tm_hour local) /\
  number_at 14 2 (Client.stamp now local) = Some (tm_min local) /\
  number_at 17 2 (Client.stamp now local) = Some (tm_sec local) /\
  number_at 20 3 (Client.stamp now local) = Some (Client.ms_count now) /\
  0 <= Client.ms_count now < 1000 /\
  now / 1000000 = 1000 * Client.to_time_t now + Client.ms_count now.
Proof.
  intros now local Hnow Hlocal.
  pose proof (ms_count_range now Hnow) as Hms.
  pose proof (ms_shape (Client.ms_count now) ltac:(lia)) as Hshape.
  apply andb_prop in Hshape as [Hshape Hread].
  pose proof Hlocal as Hfields. unfold valid_tm in Hfields.
  repeat (apply andb_prop in Hfields as [Hfields ?]).
  repeat match goal with
         | H : (_ <=? _) = true |- _ => apply Z.leb_le in H
         end.
  split; [reflexivity|]. split; [exact (stamp_shape now local Hnow Hlocal)|].
  pose proof (fields_at (dec (tm_year local + 1900)) (two_digits (tm_mon local + 1))
                (two_digits (tm_mday local)) (two_digits (tm_hour local))
                (two_digits (tm_min local)) (two_digits (tm_sec local))
                (pad_left 3 "0" (dec (Client.ms_count now)))
                (matches_pattern_length _ _ (year_shape (tm_year local + 1900) ltac:(lia)))
                (matches_pattern_length _ _ (two_digits_shape (tm_mon local + 1) ltac:(lia)))
                (matches_pattern_length _ _ (two_digits_shape (tm_mday local) ltac:(lia)))
                (matches_pattern_length _ _ (two_digits_shape (tm_hour local) ltac:(lia)))
                (matches_pattern_length _ _ (two_digits_shape (tm_min local) ltac:(lia)))
                (matches_pattern_length _ _ (two_digits_shape (tm_sec local) ltac:(lia)))
                (matches_pattern_length _ _ Hshape))
    as (HY & HM & HD & Hh & Hm & Hs & Hmsf).
  cbv zeta in HY, HM, HD, Hh, Hm, Hs, Hmsf.
  change (Client.stamp now local) with
    ((dec (tm_year local + 1900) +:+ "-" +:+ two_digits (tm_mon local + 1) +:+ "-" +:+
      two_digits (tm_mday local) +:+ " " +:+ two_digits (tm_hour local) +:+ ":" +:+
      two_digits (tm_min local) +:+ ":" +:+ two_digits (tm_sec local))
     +:+ "." +:+ pad_left 3 "0" (dec (Client.ms_count now))).
  rewrite HY, HM, HD, Hh, Hm, Hs, Hmsf.
  rewrite year_reads_back by lia.
  rewrite !two_digits_read_back by lia.
  repeat (split; [reflexivity|]).
  split; [|split; [exact Hms|]].
  - destruct (leading_digits None _) as [v|]; [|discriminate].
    apply Z.eqb_eq in Hread. congruence.
  - unfold Client.ms_count, Client.to_time_t.
    rewrite Z.rem_mod_nonneg by (try apply Z.quot_pos; lia).
    rewrite !Z.quot_div_nonneg by lia.
    replace 1000000000 with (1000000 * 1000) by reflexivity.
    rewrite <- Z.div_div by lia.
    pose proof (Z.div_mod (now / 1000000) 1000 ltac:(lia)). lia.
Qed.

Lemma timestamp_format_witness :
  run os_ok 0 Client.GetCurrentTimestamp =
    ([Ev c_now 1700000000123456789;
      Ev (c_localtime 1700000000) (mk_tm 123 10 14 22 13 20)],
     Returned "2023-11-14 22:13:20.123") /\
  number_at 0 4 "2023-11-14 22:13:20.123" = Some 2023 /\
  number_at 5 2 "2023-11-14 22:13:20.123" = Some 11 /\
  number_at 17 2 "2023-11-14 22:13:20.123" = Some 20 /\
  Client.ms_count 1700000000123456789 = 123.
Proof.
  pose proof (timestamp_format os_ok 0 ltac:(vm_compute; discriminate) ltac:(reflexivity))
    as (Hrun & _ & HY & HM & _ & _ & _ & Hs & _).
  split; [exact Hrun|]. split; [exact HY|]. split; [exact HM|]. split; [exact Hs|].
  reflexivity.
Defined.

(** ** The connection handler, alone *)


(** Only a failed [read] gives a negative count. *)
Lemma bytes_read_negative (r : read_result) :
  (Server.bytes_read_of r <? 0) = match r with ReadError => true | ReadData _ => false end.
Proof.
  destruct r as [|d]; unfold Server.bytes_read_of; [reflexivity|].
  apply Z.ltb_ge. lia.
Qed.

(** Every run of the handler, by the answers to [read] and to the
    opening of log.txt. *)
Lemma HandleClient_run (o : oracle) (i : nat) (fd : Z) :
  let r := o i (c_read fd Server.buffer_size) in
  let calls := map ev_call (fst (run o i (Server.HandleClient fd))) in
  let out := snd (run o i (Server.HandleClient fd)) in
  match r with
  | ReadError =>
      calls = [c_read fd Server.buffer_size; c_cerr read_failed; c_close fd] /\
      out = Returned tt
  | ReadData _ =>
      if o (2 + i)%nat c_log_open then
        match c_string (Server.buffer_after r) with
        | Some s =>
            calls = [c_read fd Server.buffer_size; c_lock; c_log_open;
                     c_log_insert s; c_log_endl; c_log_close; c_unlock;
                     c_close fd] /\
            out = Returned tt
        | None =>
            calls = [c_read fd Server.buffer_size; c_lock; c_log_open] /\
            out = Undef
        end
      else
        calls = [c_read fd Server.buffer_size; c_lock; c_log_open; c_unlock;
                 c_cerr open_failed; c_close fd] /\
        out = Returned tt
  end.
Proof.
  unfold Server.HandleClient. simpl.
  rewrite bytes_read_negative.
  destruct (o i (c_read fd Server.buffer_size)) as [|d] eqn:Hr; simpl.
  - split; [reflexivity|]. f_equal. apply unit_answer.
  - destruct (o (S (S i)) c_log_open) eqn:Hopen; simpl.
    + destruct (c_string _) as [s|] eqn:Hs; simpl.
      * split; [reflexivity|]. f_equal. apply unit_answer.
      * split; reflexivity.
    + split; [reflexivity|]. f_equal. apply unit_answer.
Qed.

(** C8.  On each of its three paths the handler returns normally and
    its last call, and only that one, closes the accepted socket:
    after a failed read, after log.txt failed to open, and after the
    line was appended. *)
Theorem handler_closes_on_every_path (o : oracle) (i : nat) (fd : Z) (d s : string) :
  let calls := map ev_call (fst (run o i (Server.HandleClient fd))) in
  let out := snd (run o i (Server.HandleClient fd)) in
  (o i (c_read fd Server.buffer_size) = ReadError ->
   out = Returned tt /\
   calls = [c_read fd Server.buffer_size; c_cerr read_failed; c_close fd]) /\
  (o i (c_read fd Server.buffer_size) = ReadData d ->
   o (2 + i)%nat c_log_open = false ->
   out = Returned tt /\
   calls = [c_read fd Server.buffer_size; c_lock; c_log_open; c_unlock;
            c_cerr open_failed; c_close fd]) /\
  (o i (c_read fd Server.buffer_size) = ReadData d ->
   o (2 + i)%nat c_log_open = true ->
   c_string (Server.buffer_after (ReadData d)) = Some s ->
   out = Returned tt /\
   calls = [c_read fd Server.buffer_size; c_lock; c_log_open; c_log_insert s;
            c_log_endl; c_log_close; c_unlock; c_close fd]).
Proof.
  intros calls out. subst calls out.
  pose proof (HandleClient_run o i fd) as H. cbv zeta in H.
  repeat split; intros.
  all: repeat match goal with E : _ = _ |- _ => rewrite E in H; clear E end.
  all: tauto.
Qed.

Lemma handler_closes_on_every_path_witness :
  map ev_call (fst (run (os_reading ReadError) 0 (Server.HandleClient 4))) =
    [c_read 4 Server.buffer_size; c_cerr read_failed; c_close 4] /\
  map ev_call (fst (run os_log_unwritable 0 (Server.HandleClient 4))) =
    [c_read 4 Server.buffer_size; c_lock; c_log_open; c_unlock;
     c_cerr open_failed; c_close 4] /\
  map ev_call (fst (run os_ok 0 (Server.HandleClient 4))) =
    [c_read 4 Server.buffer_size; c_lock; c_log_open;
     c_log_insert "2023-11-14 22:13:20.123 alice";
     c_log_endl; c_log_close; c_unlock; c_close 4].
Proof.
  split; [|split].
  - apply (handler_closes_on_every_path (os_reading ReadError) 0 4 "" ""). reflexivity.
  - apply (handler_closes_on_every_path os_log_unwritable 0 4
             "2023-11-14 22:13:20.123 alice" ""); reflexivity.
  - apply (handler_closes_on_every_path os_ok 0 4
             "2023-11-14 22:13:20.123 alice" "2023-11-14 22:13:20.123 alice");
      reflexivity.
Defined.


(** ** What reaches log.txt *)

Lemma prefix_of_short (n : nat) (s : string) :
  (String.length s <= n)%nat -> prefix_of n s = s.
Proof.
  revert n. induction s as [|c s IH]; intros [|n] H; cbn in *; try reflexivity; try lia.
  f_equal. apply IH. lia.
Qed.

(** A NUL-free text followed by at least one NUL is printed whole. *)
Lemma c_string_padded (s : string) (k : nat) :
  nul_free s = true -> c_string (s +:+ fill (S k) NUL) = Some s.
Proof.
  induction s as [|c s IH]; intros H.
  - reflexivity.
  - cbn in H. apply andb_prop in H as [Hc Hs].
    rewrite append_cons. cbn [c_string].
    apply negb_true_iff in Hc. rewrite Hc, (IH Hs). reflexivity.
Qed.

(** The buffer read as a C string gives back a NUL-free message
    shorter than the buffer. *)
Lemma buffer_holds_short_message (msg : string) :
  nul_free msg = true ->
  (String.length msg < Server.buffer_size)%nat ->
  c_string (Server.buffer_after (ReadData msg)) = Some msg.
Proof.
  intros Hnul Hlen. unfold Server.buffer_after.
  rewrite prefix_of_short by lia.
  destruct (Server.buffer_size - String.length msg)%nat as [|k] eqn:Hk; [lia|].
  apply c_string_padded. exact Hnul.
Qed.

(** C9.  When the peer closes without sending, [read] gives zero
    bytes, which is no error: the handler appends an empty line to
    log.txt, prints nothing on standard error and returns.  In any run
    the read error is reported exactly when the count of bytes read is
    negative. *)
Theorem empty_read_appends_empty_line (o : oracle) (i : nat) (fd : Z) :
  let tr := fst (run o i (Server.HandleClient fd)) in
  (o i (c_read fd Server.buffer_size) = ReadData "" ->
   o (2 + i)%nat c_log_open = true ->
   Server.bytes_read_of (ReadData "") = 0 /\
   snd (run o i (Server.HandleClient fd)) = Returned tt /\
   map ev_call tr =
     [c_read fd Server.buffer_size; c_lock; c_log_open; c_log_insert "";
      c_log_endl; c_log_close; c_unlock; c_close fd] /\
   log_written tr = newline /\
   stderr_of tr = []) /\
  (In read_failed (stderr_of tr) <->
   Server.bytes_read_of (o i (c_read fd Server.buffer_size)) < 0).
Proof.
  intros tr. subst tr.
  pose proof (HandleClient_run o i fd) as H. cbv zeta in H.
  unfold log_written, stderr_of.
  split.
  - intros Hr Hopen. rewrite Hr, Hopen in H.
    rewrite (buffer_holds_short_message "") in H
      by (try reflexivity; unfold Server.buffer_size; cbn; lia).
    destruct H as [-> ->]. repeat split.
  - pose proof (bytes_read_negative (o i (c_read fd Server.buffer_size))) as Hneg.
    destruct (o i (c_read fd Server.buffer_size)) as [|d].
    + destruct H as [-> _]. apply Z.ltb_lt in Hneg. cbn. tauto.
    + apply Z.ltb_ge in Hneg.
      destruct (o (2 + i)%nat c_log_open);
        [destruct (c_string _)|]; destruct H as [-> _]; cbn;
        (split; [intros Hin | lia]).
      all: repeat destruct Hin as [Hin|Hin]; try discriminate; try contradiction.
Qed.

Lemma empty_read_appends_empty_line_witness :
  log_written (fst (run (os_reading (ReadData "")) 0 (Server.HandleClient 4))) = newline /\
  stderr_of (fst (run (os_reading (ReadData "")) 0 (Server.HandleClient 4))) = [].
Proof.
  pose proof (proj1 (empty_read_appends_empty_line (os_reading (ReadData "")) 0 4)
                eq_refl eq_refl) as (_ & _ & _ & Hlog & Herr).
  split; [exact Hlog | exact Herr].
Defined.

(** Below the size of the buffer the message goes through unchanged:
    what the client sends is "<timestamp> <name>" with its length, and
    when a single read delivers it and log.txt opens, the handler
    appends it with a newline and nothing else. *)
Lemma roundtrip_below_buffer_size
    (oc os : oracle) (i j : nat) (this : Client.t) (sock fd : Z) :
  let now := oc i c_now in
  let local := oc (S i) (c_localtime (Client.to_time_t now)) in
  let message := Client.stamp now local +:+ " " +:+ Client.name_ this in
  nul_free message = true ->
  (String.length message < Server.buffer_size)%nat ->
  os j (c_read fd Server.buffer_size) = ReadData message ->
  os (2 + j)%nat c_log_open = true ->
  map ev_call (fst (run oc i (Client.SendMessage this sock))) =
    [c_now; c_localtime (Client.to_time_t now);
     c_send sock message (String.length message)] /\
  log_written (fst (run os j (Server.HandleClient fd))) = message +:+ newline /\
  snd (run os j (Server.HandleClient fd)) = Returned tt.
Proof.
  intros now local message Hnul Hlen Hread Hopen.
  split.
  - unfold Client.SendMessage, Client.GetCurrentTimestamp. simpl.
    match goal with |- context [if ?b then _ else _] => destruct b end; reflexivity.
  - pose proof (HandleClient_run os j fd) as H. cbv zeta in H.
    rewrite Hread, Hopen, (buffer_holds_short_message _ Hnul Hlen) in H.
    destruct H as [Hcalls ->]. unfold log_written. rewrite Hcalls.
    split; [|reflexivity]. cbn. rewrite append_nil_r. reflexivity.
Qed.

Lemma digit_not_nul (c : ascii) : is_digit c = true -> Ascii.eqb c NUL = false.
Proof.
  destruct c as [[] [] [] [] [] [] [] []]; cbv; intros H; first [reflexivity | discriminate H].
Qed.

(** What follows a NUL-free pattern is NUL-free. *)
Lemma matches_pattern_nul_free (pat s : string) :
  nul_free pat = true -> matches_pattern pat s = true -> nul_free s = true.
Proof.
  revert s. induction pat as [|p pat IH]; intros [|c s]; cbn; try discriminate; auto.
  intros Hpat Hm.
  apply andb_prop in Hpat as [Hp Hpat]. apply andb_prop in Hm as [Hc Hm].
  rewrite (IH s Hpat Hm), andb_true_r.
  destruct (Ascii.eqb p "d").
  - rewrite (digit_not_nul c Hc). reflexivity.
  - apply Ascii.eqb_eq in Hc. subst c. exact Hp.
Qed.

Lemma nul_free_app (s1 s2 : string) :
  nul_free (s1 +:+ s2) = (nul_free s1 && nul_free s2)%bool.
Proof.
  induction s1 as [|c s1 IH]; [reflexivity|].
  rewrite append_cons. cbn. rewrite IH, andb_assoc. reflexivity.
Qed.

Lemma valid_name_nul_free (name : string) : valid_name name = true -> nul_free name = true.
Proof.
  unfold valid_name. intros H. apply andb_prop in H as [_ H].
  induction name as [|c name IH]; [reflexivity|].
  cbn in H. apply andb_prop in H as [Hc H]. cbn. rewrite (IH H), andb_true_r.
  destruct c as [[] [] [] [] [] [] [] []]; first [reflexivity | discriminate Hc].
Qed.

(** The round trip of every valid pair of name and time whose message
    is shorter than the buffer: a printable name and a clock reading
    not before the epoch, in a year of four digits. *)
Lemma valid_message_roundtrip
    (oc os : oracle) (i j : nat) (this : Client.t) (sock fd : Z) :
  let now := oc i c_now in
  let local := oc (S i) (c_localtime (Client.to_time_t now)) in
  let message := Client.stamp now local +:+ " " +:+ Client.name_ this in
  valid_name (Client.name_ this) = true ->
  0 <= now -> valid_tm local = true ->
  (String.length message < Server.buffer_size)%nat ->
  os j (c_read fd Server.buffer_size) = ReadData message ->
  os (2 + j)%nat c_log_open = true ->
  map ev_call (fst (run oc i (Client.SendMessage this sock))) =
    [c_now; c_localtime (Client.to_time_t now);
     c_send sock message (String.length message)] /\
  log_written (fst (run os j (Server.HandleClient fd))) = message +:+ newline /\
  snd (run os j (Server.HandleClient fd)) = Returned tt.
Proof.
  intros now local message Hname Hnow Hlocal.
  apply roundtrip_below_buffer_size.
  fold now. fold local. rewrite !nul_free_app.
  rewrite (matches_pattern_nul_free "dddd-dd-dd dd:dd:dd.ddd" _ eq_refl
             (stamp_shape now local Hnow Hlocal)).
  rewrite (valid_name_nul_free _ Hname). reflexivity.
Qed.

Lemma roundtrip_below_buffer_size_witness :
  log_written (fst (run os_ok 0 (Server.HandleClient 4))) =
    "2023-11-14 22:13:20.123 alice" +:+ newline.
Proof.
  apply (roundtrip_below_buffer_size os_ok os_ok 0 0 alice 3 4);
    first [reflexivity | vm_compute; lia].
Defined.

(** C1 fails for a message as long as the buffer.  The client with
    the 1000-character name sends 1024 bytes; a single read stores them
    all in [buffer], which then holds no NUL, and the insertion of
    [buffer] into the log stream runs past the array: the run has no
    defined behaviour and no line is appended within it. *)
Theorem full_buffer_message_overread :
  let message := "2023-11-14 22:13:20.123 " +:+ fill 1000 "a" in
  String.length message = Server.buffer_size /\
  nul_free message = true /\
  map ev_call (fst (run os_ok 0 (Client.SendMessage long_name_client 3))) =
    [c_now; c_localtime 1700000000; c_send 3 message 1024] /\
  Server.buffer_after (ReadData message) = message /\
  c_string (Server.buffer_after (ReadData message)) = None /\
  run (os_reading (ReadData message)) 0 (Server.HandleClient 4) =
    ([Ev (c_read 4 Server.buffer_size) (ReadData message);
      Ev c_lock tt; Ev c_log_open true], Undef).
Proof. vm_compute. repeat split. Qed.

(** ** The server's set-up and the exit status *)

(** The accept loop never leaves by itself: after any number of rounds
    it is still running, has called [accept] once in each of them, and
    has answered each result. *)
Lemma AcceptConnections_run (o : oracle) (fd : Z) (n : nat) :
  forall i,
    snd (run o i (Server.AcceptConnections n fd)) = StillRunning /\
    count_calls is_accept (fst (run o i (Server.AcceptConnections n fd))) = n /\
    accepts_handled (fst (run o i (Server.AcceptConnections n fd))) = true.
Proof.
  induction n as [|n IH]; intros i; [repeat split|].
  cbn [Server.AcceptConnections]. simpl.
  destruct (o i (c_accept fd) <? 0) eqn:Hneg; simpl.
  - destruct (IH (S (S i))) as (Hout & Hcount & Hh).
    destruct (run o (S (S i)) (Server.AcceptConnections n fd)) as [tr out].
    cbn in *. unfold count_calls in *. cbn. rewrite Hneg. cbn.
    repeat split; auto.
  - destruct (IH (S (S i))) as (Hout & Hcount & Hh).
    destruct (run o (S (S i)) (Server.AcceptConnections n fd)) as [tr out].
    cbn in *. unfold count_calls in *. cbn.
    apply Z.ltb_ge in Hneg. apply Z.leb_le in Hneg. rewrite Hneg, Z.eqb_refl. cbn.
    repeat split; auto.
Qed.


(** Every run of the server's [Start], by the stage of the set-up
    that fails, if any. *)
Lemma Server_Start_run (o : oracle) (i n : nat) (this : Server.t) :
  let fd := o i c_socket in
  let port := Server.port_ this in
  let calls := map ev_call (fst (run o i (Server.Start n this))) in
  let out := snd (run o i (Server.Start n this)) in
  if fd =? -1 then
    calls = [c_socket; c_close_ptr (new_int fd); c_cerr create_failed] /\ out = Returned tt
  else if o (1 + i)%nat (c_bind fd port) <? 0 then
    calls = [c_socket; c_bind fd port; c_close_ptr (new_int fd); c_cerr bind_failed] /\
    out = Returned tt
  else if o (2 + i)%nat (c_listen fd 10) <? 0 then
    calls = [c_socket; c_bind fd port; c_listen fd 10; c_close_ptr (new_int fd);
             c_cerr listen_failed] /\
    out = Returned tt
  else
    calls = ([c_socket; c_bind fd port; c_listen fd 10;
              c_cout ("Server listening on port " +:+ dec port)] ++
             map ev_call (fst (run o (4 + i) (Server.AcceptConnections n fd))))%list /\
    out = StillRunning.
Proof.
  unfold Server.Start, Server.CreateSocket, Server.BindSocket, Server.ListenOnSocket,
    on_unwind.
  simpl.
  destruct (o i c_socket =? -1) eqn:Hs; simpl.
  { split; [reflexivity|]. f_equal. apply unit_answer. }
  destruct (o (S i) (c_bind _ _) <? 0) eqn:Hb; simpl.
  { split; [reflexivity|]. f_equal. apply unit_answer. }
  destruct (o (S (S i)) (c_listen _ _) <? 0) eqn:Hl; simpl.
  { split; [reflexivity|]. f_equal. apply unit_answer. }
  pose proof (AcceptConnections_run o (o i c_socket) n (S (S (S (S i))))) as (Hout & _).
  rewrite run_try_catch, run_finally_running by exact Hout.
  destruct (run o (S (S (S (S i)))) (Server.AcceptConnections n (o i c_socket)))
    as [tr out].
  simpl in *. subst out. split; reflexivity.
Qed.

(** [Start] of the server never throws. *)
Lemma Server_Start_outcome (o : oracle) (i n : nat) (this : Server.t) :
  snd (run o i (Server.Start n this)) = Returned tt \/
  snd (run o i (Server.Start n this)) = StillRunning.
Proof.
  pose proof (Server_Start_run o i n this) as H. cbv zeta in H.
  repeat match type of H with (if ?b then _ else _) => destruct b end;
    destruct H as [_ ->]; auto.
Qed.

(** [main] in server mode with a port argument that [stoi] accepts. *)
Lemma main_server_run (o : oracle) (n : nat) (prog_name arg : string) (v : Z) :
  stoi arg = inr v ->
  run o 0 (main n [prog_name; "server"; arg]) =
    then_run o 0 (run o 0 (Server.Start n (Server.mk (to_uint16 v)))) (fun _ => Ret 0).
Proof.
  intros Hv. unfold main.
  cbn [length argv_at nth Z.of_nat Pos.of_succ_nat Pos.succ Z.ltb Z.compare Pos.compare
       Pos.compare_cont String.eqb Ascii.eqb Bool.eqb andb Z.eqb].
  rewrite Hv. cbn [lift bind].
  change (Z.of_nat 3 <? 2) with false. change (Z.of_nat 3 =? 3) with true. cbv iota.
  rewrite run_try_catch, run_bind.
  destruct (Server_Start_outcome o 0 n (Server.mk (to_uint16 v))) as [H|H];
    destruct (run o 0 (Server.Start n (Server.mk (to_uint16 v)))) as [tr out];
    cbn in H; subst out; reflexivity.
Qed.

(** C2 (amended).  When the set-up of the server socket fails, at
    socket creation, at bind or at listen, the server prints
    "Server error: " and the message on standard error and stops: it
    makes no second attempt and never accepts.  Apart from the failing
    call and that line, all that happens is the end of the socket
    handle.  [Start] has handled the exception itself, so [main]
    returns 0. *)
Theorem server_setup_failure (o : oracle) (n : nat) (prog_name arg : string) (v : Z) :
  stoi arg = inr v ->
  let fd := o 0%nat c_socket in
  let port := to_uint16 v in
  let calls := map ev_call (trace_of o (main n [prog_name; "server"; arg])) in
  let status := result_of o (main n [prog_name; "server"; arg]) in
  (fd = -1 ->
   calls = [c_socket; c_close_ptr (new_int fd); c_cerr create_failed] /\ status = Returned 0) /\
  (fd <> -1 -> o 1%nat (c_bind fd port) < 0 ->
   calls = [c_socket; c_bind fd port; c_close_ptr (new_int fd); c_cerr bind_failed] /\
   status = Returned 0) /\
  (fd <> -1 -> 0 <= o 1%nat (c_bind fd port) -> o 2%nat (c_listen fd 10) < 0 ->
   calls = [c_socket; c_bind fd port; c_listen fd 10; c_close_ptr (new_int fd);
            c_cerr listen_failed] /\
   status = Returned 0).
Proof.
  intros Hv fd port calls status. subst calls status fd port.
  unfold trace_of, result_of. rewrite (main_server_run o n prog_name arg v Hv).
  pose proof (Server_Start_run o 0 n (Server.mk (to_uint16 v))) as H.
  cbv zeta in H. cbn [Server.port_ Nat.add] in H.
  destruct (run o 0 (Server.Start n (Server.mk (to_uint16 v)))) as [tr out].
  cbn [fst snd] in H.
  split; [|split].
  - intros Hfd. rewrite Hfd in H. cbn in H. destruct H as [Hc ->].
    cbn. rewrite app_nil_r. rewrite Hfd. auto.
  - intros Hfd Hb. apply Z.eqb_neq in Hfd. apply Z.ltb_lt in Hb.
    rewrite Hfd, Hb in H. destruct H as [Hc ->]. cbn. rewrite app_nil_r. auto.
  - intros Hfd Hb Hl. apply Z.eqb_neq in Hfd. apply Z.ltb_ge in Hb. apply Z.ltb_lt in Hl.
    rewrite Hfd, Hb, Hl in H. destruct H as [Hc ->]. cbn. rewrite app_nil_r. auto.
Qed.

Lemma server_setup_failure_witness :
  map ev_call (trace_of (os_failing 1 (-1)) (main 1 ["heartbeat"; "server"; "8080"])) =
    [c_socket; c_bind 3 8080; c_close_ptr (new_int 3); c_cerr bind_failed] /\
  result_of (os_failing 1 (-1)) (main 1 ["heartbeat"; "server"; "8080"]) = Returned 0.
Proof.
  apply (server_setup_failure (os_failing 1 (-1)) 1 "heartbeat" "8080" 8080 eq_refl).
  - vm_compute. discriminate.
  - vm_compute. reflexivity.
Defined.

(** C2 as stated fails: with a [bind] that fails, the error is printed
    on standard error and the exit status is 0, not 1. *)
Lemma server_bind_failure_exit_status :
  let o := os_failing 1 (-1) in
  let argv := ["heartbeat"; "server"; "8080"] in
  o 1%nat (c_bind 3 8080) < 0 /\
  stderr_of (trace_of o (main 1 argv)) = [bind_failed] /\
  result_of o (main 1 argv) = Returned 0 /\
  result_of o (main 1 argv) <> Returned 1.
Proof. vm_compute. repeat split; discriminate. Qed.

(** ** The port argument *)

(** [Start] of the client never throws. *)
Lemma Client_Start_outcome (o : oracle) (i n : nat) (this : Client.t) :
  snd (run o i (Client.Start n this)) = Returned tt \/
  snd (run o i (Client.Start n this)) = StillRunning.
Proof.
  unfold Client.Start. rewrite run_try_catch.
  destruct (rounds_run o this n i) as [tr Htr | pre e fd x m Hpre He]; simpl.
  - right. reflexivity.
  - left. f_equal. apply unit_answer.
Qed.

(** [main] in client mode with arguments that [stoi] accepts. *)
Lemma main_client_run (o : oracle) (n : nat)
    (prog_name name arg period_arg : string) (v p : Z) :
  stoi arg = inr v ->
  stoi period_arg = inr p ->
  run o 0 (main n [prog_name; "client"; name; arg; period_arg]) =
    then_run o 0 (run o 0 (Client.Start n (Client.mk name (to_uint16 v) p)))
      (fun _ => Ret 0).
Proof.
  intros Hv Hp. unfold main.
  cbn [length argv_at nth String.eqb Ascii.eqb Bool.eqb andb].
  rewrite Hv, Hp. cbn [lift bind].
  change (Z.of_nat 5 <? 2) with false. change (Z.of_nat 5 =? 5) with true. cbv iota.
  rewrite run_try_catch, run_bind.
  destruct (Client_Start_outcome o 0 n (Client.mk name (to_uint16 v) p)) as [H|H];
    destruct (run o 0 (Client.Start n (Client.mk name (to_uint16 v) p))) as [tr out];
    cbn in H; subst out; reflexivity.
Qed.

(** What [stoi] throws is no [SocketException]. *)
Lemma stoi_error (s : string) (e : exn) :
  stoi s = inl e -> e = invalid_argument "stoi" \/ e = out_of_range "stoi".
Proof.
  unfold stoi.
  destruct (match skip_spaces s with
            | String "-" rest => (true, rest)
            | String "+" rest => (false, rest)
            | _ => (false, skip_spaces s)
            end) as [negative s2].
  destruct (leading_digits None s2) as [v|]; [|intros [= <-]; auto].
  unfold in_int. destruct (_ && _)%bool; [discriminate|intros [= <-]; auto].
Qed.

Lemma stoi_range (s : string) (v : Z) :
  stoi s = inr v -> INT_MIN <= v <= INT_MAX.
Proof.
  unfold stoi.
  destruct (match skip_spaces s with
            | String "-" rest => (true, rest)
            | String "+" rest => (false, rest)
            | _ => (false, skip_spaces s)
            end) as [negative s2].
  destruct (leading_digits None s2) as [w|]; [|discriminate].
  unfold in_int. destruct (_ && _)%bool eqn:H; [|discriminate].
  intros [= <-]. apply andb_prop in H as [H1 H2]. lia.
Qed.

Lemma leading_digits_acc (d : Decimal.uint) (acc : positive) :
  leading_digits (Some (Z.pos acc)) (NilEmpty.string_of_uint d) =
    Some (Z.pos (Pos.of_uint_acc d acc)).
Proof.
  revert acc. induction d; intros acc; cbn [NilEmpty.string_of_uint Pos.of_uint_acc];
    [reflexivity | ..];
    cbn [leading_digits]; cbv [digit_value]; cbn -[Z.mul Z.add Pos.mul Pos.add];
    rewrite <- IHd; f_equal; f_equal;
    repeat match goal with
           | |- context [Z.of_nat (nat_of_ascii ?c)] =>
               let v := eval vm_compute in (Z.of_nat (nat_of_ascii c)) in
               change (Z.of_nat (nat_of_ascii c)) with v
           end;
    lia.
Qed.

Lemma leading_digits_zero (d : Decimal.uint) :
  leading_digits (Some 0) (NilEmpty.string_of_uint d) = Some (Z.of_N (Pos.of_uint d)).
Proof.
  induction d; cbn [NilEmpty.string_of_uint Pos.of_uint];
    [reflexivity | exact IHd | ..];
    cbn [leading_digits]; cbv [digit_value]; cbn -[Z.mul Z.add Pos.of_uint_acc];
    apply leading_digits_acc.
Qed.

Lemma leading_digits_numeral (d : Decimal.uint) :
  d <> Decimal.Nil ->
  leading_digits None (NilEmpty.string_of_uint d) = Some (Z.of_N (Pos.of_uint d)).
Proof.
  intros Hd. rewrite <- leading_digits_zero.
  destruct d; [contradiction | ..]; reflexivity.
Qed.

Lemma skip_spaces_nonspace (c : ascii) (rest : string) :
  isspace c = false -> skip_spaces (String c rest) = String c rest.
Proof. intros H. cbn [skip_spaces]. rewrite H. reflexivity. Qed.

Lemma stoi_numeral (d : Decimal.uint) :
  d <> Decimal.Nil ->
  stoi (NilEmpty.string_of_uint d) = in_int (Z.of_N (Pos.of_uint d)) /\
  stoi (String "-" (NilEmpty.string_of_uint d)) = in_int (- Z.of_N (Pos.of_uint d)).
Proof.
  intros Hd. pose proof (leading_digits_numeral d Hd) as H.
  unfold stoi.
  destruct d; [contradiction | ..]; cbn [NilEmpty.string_of_uint] in *;
    rewrite !skip_spaces_nonspace by reflexivity; cbv beta iota; rewrite H;
    split; reflexivity.
Qed.

(** The decimal numeral of any integer, as [stoi] reads it. *)
Lemma stoi_dec (z : Z) : stoi (dec z) = in_int z.
Proof.
  unfold dec. destruct z as [|p|p]; [reflexivity | |];
    cbn [Z.to_int NilZero.string_of_int]; unfold NilZero.string_of_uint;
    pose proof (Unsigned.to_uint_nonnil p) as Hn;
    pose proof (Unsigned.of_to p) as Hv;
    destruct (stoi_numeral (Pos.to_uint p) Hn) as [Hpos Hneg];
    destruct (Pos.to_uint p) eqn:E; try contradiction;
    rewrite ?Hpos, ?Hneg, Hv; reflexivity.
Qed.

(** C10 (amended).  In both modes the port argument goes through
    [stoi] and a cast to 16 bits.  An argument that [stoi] reads as
    the [int] [v] is not rejected: the server, or the client, starts
    with the port [v mod 65536], which lies in 0..65535.  An argument
    that [stoi] refuses, for want of a digit or because its number is
    no [int], is rejected: [main] prints "Standard exception: stoi" and
    returns 1 without any other call.  The decimal numeral of an
    integer [z] is read as [z] when [z] is an [int] and refused
    otherwise. *)
Theorem port_argument_narrowing (o : oracle) (n : nat)
    (prog_name name arg period_arg : string) (p z : Z) :
  stoi period_arg = inr p ->
  stoi (dec z) = in_int z /\
  match stoi arg with
  | inr v =>
      INT_MIN <= v <= INT_MAX /\
      to_uint16 v = v mod 65536 /\
      0 <= to_uint16 v <= 65535 /\
      run o 0 (main n [prog_name; "server"; arg]) =
        then_run o 0 (run o 0 (Server.Start n (Server.mk (to_uint16 v))))
          (fun _ => Ret 0) /\
      run o 0 (main n [prog_name; "client"; name; arg; period_arg]) =
        then_run o 0 (run o 0 (Client.Start n (Client.mk name (to_uint16 v) p)))
          (fun _ => Ret 0)
  | inl e =>
      map ev_call (trace_of o (main n [prog_name; "server"; arg])) =
        [c_cerr "Standard exception: stoi"] /\
      result_of o (main n [prog_name; "server"; arg]) = Returned 1 /\
      map ev_call (trace_of o (main n [prog_name; "client"; name; arg; period_arg])) =
        [c_cerr "Standard exception: stoi"] /\
      result_of o (main n [prog_name; "client"; name; arg; period_arg]) = Returned 1
  end.
Proof.
  intros Hp. split; [apply stoi_dec|].
  destruct (stoi arg) as [e|v] eqn:Hv.
  - unfold trace_of, result_of, main.
    cbn [length argv_at nth String.eqb Ascii.eqb Bool.eqb andb].
    rewrite Hv.
    change (Z.of_nat 3 <? 2) with false. change (Z.of_nat 3 =? 3) with true.
    change (Z.of_nat 5 <? 2) with false. change (Z.of_nat 5 =? 5) with true.
    cbv iota.
    destruct (stoi_error arg e Hv) as [-> | ->]; cbn; repeat split.
  - split; [exact (stoi_range arg v Hv)|].
    split; [reflexivity|].
    split; [unfold to_uint16; pose proof (Z.mod_pos_bound v (2 ^ 16)); lia|].
    split.
    + apply main_server_run. exact Hv.
    + apply main_client_run; assumption.
Qed.

Lemma port_argument_narrowing_witness :
  stoi "70000" = inr 70000 /\
  run os_ok 0 (main 1 ["heartbeat"; "server"; "70000"]) =
    then_run os_ok 0 (run os_ok 0 (Server.Start 1 (Server.mk 4464))) (fun _ => Ret 0) /\
  stoi "-1" = inr (-1) /\
  run os_ok 0 (main 1 ["heartbeat"; "server"; "-1"]) =
    then_run os_ok 0 (run os_ok 0 (Server.Start 1 (Server.mk 65535))) (fun _ => Ret 0).
Proof.
  pose proof (port_argument_narrowing os_ok 1 "heartbeat" "alice" "70000" "5" 5 70000 eq_refl)
    as (_ & _ & _ & _ & H1 & _).
  pose proof (port_argument_narrowing os_ok 1 "heartbeat" "alice" "-1" "5" 5 (-1) eq_refl)
    as (_ & _ & _ & _ & H2 & _).
  split; [reflexivity|]. split; [exact H1|].
  split; [reflexivity|]. exact H2.
Defined.

(** C10 as stated fails: 2147483648 is a number outside 0..65535, yet
    it is not reduced modulo 65536 (which would give port 0): [stoi]
    throws [out_of_range], and [main] rejects the argument with exit
    status 1 before any socket is created. *)
Lemma port_beyond_int_rejected :
  stoi "2147483648" = inl (out_of_range "stoi") /\
  2147483648 mod 65536 = 0 /\
  run os_ok 0 (main 1 ["heartbeat"; "server"; "2147483648"]) =
    ([Ev (c_cerr "Standard exception: stoi") tt], Returned 1) /\
  run os_ok 0 (main 1 ["heartbeat"; "client"; "alice"; "2147483648"; "5"]) =
    ([Ev (c_cerr "Standard exception: stoi") tt], Returned 1).
Proof. vm_compute. repeat split. Qed.

(** ** The pool of threads *)

Lemma always_here (P : prog unit -> Prop) (p : prog unit) : always P p -> P p.
Proof. destruct p; cbn; tauto. Qed.

Lemma always_next (P : prog unit -> Prop) (c : call) (k : ans c -> prog unit) (x : ans c) :
  always P (Vis c k) -> always P (k x).
Proof. cbn. intros [_ H]. apply H. Qed.

(** Solves [always P] and [serial ph] goals on a program given in
    full, branching with the program on what the operating system
    answers. *)
Ltac walk :=
  repeat first
    [ progress cbn
    | match goal with
      | |- _ /\ _ => split
      | |- True => exact I
      | |- forall _, _ => intro
      | |- context [if ?b then _ else _] => destruct b eqn:?
      | |- context [match ?x with ReadError => _ | ReadData _ => _ end] => destruct x eqn:?
      | |- context [match c_string ?b with Some _ => _ | None => _ end] =>
          destruct (c_string b) eqn:?
      | |- _ = _ => reflexivity
      end ].

Lemma handler_alive (fd : Z) : always alive (Server.HandleClient fd).
Proof. unfold Server.HandleClient. walk. Qed.

Lemma handler_serial (fd : Z) : serial None (Server.HandleClient fd).
Proof. unfold Server.HandleClient. walk. Qed.

Lemma accept_loop_alive (n : nat) (fd : Z) : always alive (Server.AcceptConnections n fd).
Proof. induction n as [|n IH]; [cbn; auto|]. cbn [Server.AcceptConnections]. walk; exact IH. Qed.

Lemma accept_loop_looping (n : nat) (fd : Z) : always looping (Server.AcceptConnections n fd).
Proof. induction n as [|n IH]; [cbn; auto|]. cbn [Server.AcceptConnections]. walk; exact IH. Qed.

Lemma accept_loop_serial (n : nat) (fd : Z) : serial None (Server.AcceptConnections n fd).
Proof. induction n as [|n IH]; [reflexivity|]. cbn [Server.AcceptConnections]. walk; exact IH. Qed.

Section Subtrees.

(** A property that a thread keeps from call to call and that a new
    handler has. *)
Variable Q : prog unit -> Prop.
Hypothesis Q_next : forall c k x, Q (Vis c k) -> Q (k x).
Hypothesis Q_handler : forall fd, Q (Server.HandleClient fd).

Lemma spawned_all (c : call) : Forall Q (spawned c).
Proof. destruct c; cbn; repeat constructor; apply Q_handler. Qed.

Lemma pool_step_all (tid : nat) (o : forall c, ans c) (st : pool) :
  Forall Q (threads st) -> Forall Q (threads (pool_step tid o st)).
Proof.
  intros Hall. unfold pool_step.
  destruct (threads st !! tid) as [[r|e| | |c k]|] eqn:Hth; try exact Hall.
  destruct (enabled tid c (mutex st)); [|exact Hall].
  cbn. apply Forall_app. split; [|apply spawned_all].
  apply Forall_insert; [exact Hall|].
  apply Q_next. exact (Forall_lookup_1 _ _ _ _ Hall Hth).
Qed.

Lemma run_pool_all (sched : schedule) (st : pool) :
  Forall Q (threads st) -> Forall Q (threads (run_pool sched st)).
Proof.
  revert st. induction sched as [|[tid o] sched IH]; intros st Hall; [exact Hall|].
  cbn. apply IH. apply pool_step_all. exact Hall.
Qed.

(** A thread keeps its index. *)
Lemma pool_step_keeps (tid : nat) (o : forall c, ans c) (st : pool) (j : nat) (p : prog unit) :
  threads st !! j = Some p -> Q p ->
  exists p', threads (pool_step tid o st) !! j = Some p' /\ Q p'.
Proof.
  intros Hj Hp. unfold pool_step.
  destruct (threads st !! tid) as [[r|e| | |c k]|] eqn:Hth; eauto.
  destruct (enabled tid c (mutex st)); eauto.
  cbn. pose proof (lookup_lt_Some _ _ _ Hj) as Hlt.
  rewrite lookup_app_l by (rewrite length_insert; exact Hlt).
  destruct (decide (tid = j)) as [->|Hne].
  - rewrite list_lookup_insert_eq by exact Hlt.
    eexists; split; [reflexivity|]. apply Q_next.
    rewrite Hj in Hth. injection Hth as ->. exact Hp.
  - rewrite list_lookup_insert_ne by exact Hne. eauto.
Qed.

Lemma run_pool_keeps (sched : schedule) (st : pool) (j : nat) (p : prog unit) :
  threads st !! j = Some p -> Q p ->
  exists p', threads (run_pool sched st) !! j = Some p' /\ Q p'.
Proof.
  revert st p. induction sched as [|[tid o] sched IH]; intros st p Hj Hp; [eauto|].
  cbn. destruct (pool_step_keeps tid o st j p Hj Hp) as (p' & Hj' & Hp').
  exact (IH _ _ Hj' Hp').
Qed.

End Subtrees.

(** C5.  Whatever the schedule of the threads and the answers of the
    operating system, from the start of the accept loop on: no
    exception ever leaves a thread, and the thread of the accept loop
    has neither ended nor is it waiting for a handler or for the mutex.
    Alone, the accept loop is still running after any number of rounds,
    has called [accept] once in each, and has answered every failed
    [accept] with its message on standard error before the next round.
    A handler whose read fails, or whose log.txt does not open, prints
    the error, closes its socket and returns. *)
Theorem server_survives_connection_errors
    (n : nat) (server_fd : Z) (log0 : string) (sched : schedule)
    (o : oracle) (i : nat) (client_fd : Z) :
  let st := run_pool sched (boot log0 (Server.AcceptConnections n server_fd)) in
  let loop := run o i (Server.AcceptConnections n server_fd) in
  let handler := run o i (Server.HandleClient client_fd) in
  (forall tid p, threads st !! tid = Some p -> alive p) /\
  (exists p, threads st !! 0%nat = Some p /\ looping p) /\
  (snd loop = StillRunning /\
   count_calls is_accept (fst loop) = n /\
   accepts_handled (fst loop) = true) /\
  (o i (c_read client_fd Server.buffer_size) = ReadError ->
   snd handler = Returned tt /\
   map ev_call (fst handler) =
     [c_read client_fd Server.buffer_size; c_cerr read_failed; c_close client_fd]) /\
  (o i (c_read client_fd Server.buffer_size) <> ReadError ->
   o (2 + i)%nat c_log_open = false ->
   snd handler = Returned tt /\
   map ev_call (fst handler) =
     [c_read client_fd Server.buffer_size; c_lock; c_log_open; c_unlock;
      c_cerr open_failed; c_close client_fd]).
Proof.
  intros st loop handler. subst st loop handler.
  split; [|split; [|split; [|split]]].
  - intros tid p Hp.
    assert (Hall : Forall (always alive)
              (threads (run_pool sched (boot log0 (Server.AcceptConnections n server_fd))))).
    { apply run_pool_all.
      - intros c k x. apply always_next.
      - apply handler_alive.
      - cbn. repeat constructor. apply accept_loop_alive. }
    apply always_here. exact (Forall_lookup_1 _ _ _ _ Hall Hp).
  - destruct (run_pool_keeps (always looping) (fun c k x => always_next _ c k x) sched
                (boot log0 (Server.AcceptConnections n server_fd)) 0
                (Server.AcceptConnections n server_fd) eq_refl
                (accept_loop_looping n server_fd)) as (p & Hp & Hloop).
    exists p. split; [exact Hp | apply always_here; exact Hloop].
  - apply AcceptConnections_run.
  - intros Hr. pose proof (HandleClient_run o i client_fd) as H. cbv zeta in H.
    rewrite Hr in H. tauto.
  - intros Hr Hopen. pose proof (HandleClient_run o i client_fd) as H. cbv zeta in H.
    destruct (o i (c_read client_fd Server.buffer_size)); [congruence|].
    rewrite Hopen in H. tauto.
Qed.

(** ** The lock discipline *)

Lemma phase_of_other (s : cs_state) (j : nat) :
  holder s <> Some j -> phase_of s j = None.
Proof.
  destruct s as [|t ph]; cbn; [reflexivity|].
  intros H. case_decide; [subst; congruence | reflexivity].
Qed.

(** A call that a thread may make where it stands, and that the mutex
    lets through, is a step of the discipline of the whole pool; it
    moves that thread alone. *)
Lemma discipline_step (s : cs_state) (tid : nat) (c : call) (x : ans c)
    (ph' : option phase) :
  phase_step (phase_of s tid) c x = Some ph' ->
  enabled tid c (holder s) = true ->
  exists s',
    cs_step s tid c x = Some s' /\
    phase_of s' tid = ph' /\
    (forall j, j <> tid -> phase_of s' j = phase_of s j) /\
    holder s' = mutex_after tid c (holder s).
Proof.
  intros Hph Hen.
  destruct s as [|t ph]; destruct c; cbn in *;
    repeat case_decide; subst; try discriminate; try congruence;
    try (destruct ph; try discriminate);
    try case_bool_decide; try discriminate; try congruence;
    injection Hph as <-;
    eexists; (split; [reflexivity|]); cbn;
    repeat case_decide; try congruence;
    (split; [reflexivity|]); (split; [|reflexivity]);
    intros j Hj; repeat case_decide; congruence.
Qed.

Lemma appended_app (h1 h2 : list (nat * event)) :
  appended (h1 ++ h2) = (appended h1 ++ appended h2)%list.
Proof. unfold appended. apply flat_map_app. Qed.

Lemma endl_count_app (h1 h2 : list (nat * event)) :
  endl_count (h1 ++ h2) = (endl_count h1 + endl_count h2)%nat.
Proof. unfold endl_count. rewrite List.filter_app, length_app. reflexivity. Qed.

Lemma lines_text_app (ms1 ms2 : list string) :
  lines_text (ms1 ++ ms2) = lines_text ms1 +:+ lines_text ms2.
Proof.
  induction ms1 as [|m ms1 IH]; [reflexivity|].
  cbn. rewrite IH. unfold line. rewrite !append_assoc. reflexivity.
Qed.

(** The text of log.txt follows the discipline step by step. *)
Lemma log_step (log0 : string) (s s' : cs_state) (tid : nat) (c : call) (x : ans c)
    (log : string) (h : list (nat * event)) :
  cs_step s tid c x = Some s' ->
  log_matches log0 s log h ->
  log_matches log0 s' (log +:+ written c) (h ++ [(tid, Ev c x)]).
Proof.
  unfold log_matches. intros Hstep Hlog.
  rewrite appended_app, endl_count_app.
  destruct s as [|t ph]; destruct c; cbn in *;
    try (destruct ph; try discriminate);
    repeat case_decide; try discriminate;
    injection Hstep as <-; cbn in *;
    rewrite ?app_nil_r, ?append_nil_r, ?Nat.add_0_r; try exact Hlog.
  - (* open, from Locked *)
    destruct x; cbn; exact Hlog.
  - (* insert *)
    destruct Hlog as [-> Hcount]. exists (appended h).
    rewrite append_assoc. auto.
  - (* endl *)
    destruct Hlog as (ms & -> & -> & ->). split.
    + rewrite lines_text_app. cbn. unfold line.
      rewrite !append_assoc, append_nil_r. reflexivity.
    + rewrite length_app. cbn. reflexivity.
Qed.

Lemma cs_scan_snoc (h : list (nat * event)) (s : cs_state) (tid : nat) (c : call) (x : ans c) :
  cs_scan h = Some s ->
  cs_scan (h ++ [(tid, Ev c x)]) = cs_step s tid c x.
Proof. unfold cs_scan. rewrite fold_left_app. intros ->. reflexivity. Qed.

Lemma spawned_serial (c : call) (j : nat) (p : prog unit) :
  spawned c !! j = Some p -> serial None p.
Proof.
  destruct c; destruct j as [|j]; cbn; try discriminate.
  intros [= <-]. apply handler_serial.
Qed.

(** Every step of the pool keeps the invariant. *)
Lemma pool_step_inv (log0 : string) (tid : nat) (o : forall c, ans c)
    (st : pool) (s : cs_state) :
  pool_inv log0 st s -> exists s', pool_inv log0 (pool_step tid o st) s'.
Proof.
  intros Hinv. unfold pool_step.
  destruct (threads st !! tid) as [[r|e| | |c k]|] eqn:Hth; eauto.
  destruct (enabled tid c (mutex st)) eqn:Hen; eauto.
  destruct Hinv as [Hscan Hmutex Hthreads Hholder Hlog].
  pose proof (Hthreads tid _ Hth) as Hser. cbn in Hser. specialize (Hser (o c)).
  destruct (phase_step (phase_of s tid) c (o c)) as [ph'|] eqn:Hph; [|contradiction].
  rewrite Hmutex in Hen.
  destruct (discipline_step s tid c (o c) ph' Hph Hen) as (s' & Hstep & Hmine & Hothers & Hhold).
  pose proof (lookup_lt_Some _ _ _ Hth) as Htid.
  exists s'. constructor; cbn [history threads mutex log_txt].
  - rewrite (cs_scan_snoc _ _ _ _ _ Hscan). exact Hstep.
  - rewrite Hmutex. symmetry. exact Hhold.
  - intros j p Hj.
    destruct (decide (j < length (threads st))%nat) as [Hlt|Hge].
    + rewrite lookup_app_l in Hj by (rewrite length_insert; exact Hlt).
      destruct (decide (tid = j)) as [->|Hne].
      * rewrite list_lookup_insert_eq in Hj by exact Hlt.
        injection Hj as <-. rewrite Hmine. exact Hser.
      * rewrite list_lookup_insert_ne in Hj by exact Hne.
        rewrite Hothers by congruence. exact (Hthreads j p Hj).
    + rewrite lookup_app_r in Hj by (rewrite length_insert; lia).
      rewrite phase_of_other; [exact (spawned_serial _ _ _ Hj)|].
      intros Hj'. rewrite Hhold in Hj'.
      destruct c; cbn in Hj'; try (apply Hholder in Hj'; lia);
        try (injection Hj' as <-; lia); discriminate.
  - intros t Ht. rewrite length_app, length_insert. rewrite Hhold in Ht.
    destruct c; cbn in Ht; try (apply Hholder in Ht; lia);
      try (injection Ht as <-; lia); discriminate.
  - exact (log_step log0 s s' tid c (o c) _ _ Hstep Hlog).
Qed.

Lemma run_pool_inv (log0 : string) (sched : schedule) (st : pool) (s : cs_state) :
  pool_inv log0 st s -> exists s', pool_inv log0 (run_pool sched st) s'.
Proof.
  revert st s. induction sched as [|[tid o] sched IH]; intros st s Hinv; [eauto|].
  cbn. destruct (pool_step_inv log0 tid o st s Hinv) as (s1 & H1).
  exact (IH _ _ H1).
Qed.

Lemma boot_inv (log0 : string) (p : prog unit) :
  serial None p -> pool_inv log0 (boot log0 p) Free.
Proof.
  intros Hp. constructor; cbn; try reflexivity.
  - intros [|tid] q; cbn; [intros [= <-]; exact Hp | discriminate].
  - discriminate.
  - unfold log_matches. cbn. rewrite append_nil_r. auto.
Qed.

(** ** Lines of the log *)

Lemma split_lines_line (cur m rest : string) :
  newline_free m = true ->
  split_lines cur (m +:+ newline +:+ rest) = (cur +:+ m) :: split_lines "" rest.
Proof.
  revert cur. induction m as [|c m IH]; intros cur Hm.
  - cbn. rewrite append_nil_r. reflexivity.
  - cbn in Hm. apply andb_prop in Hm as [Hc Hm]. apply negb_true_iff in Hc.
    rewrite append_cons. cbn [split_lines]. rewrite Hc, (IH _ Hm).
    rewrite append_assoc. reflexivity.
Qed.

Lemma split_lines_text (ms : list string) :
  forallb newline_free ms = true ->
  split_lines "" (lines_text ms) = ms.
Proof.
  induction ms as [|m ms IH]; intros H; [reflexivity|].
  cbn in H. apply andb_prop in H as [Hm Hms].
  cbn [lines_text]. unfold line. rewrite append_assoc.
  rewrite (split_lines_line "" m _ Hm), (IH Hms). reflexivity.
Qed.

(** C7.  Whatever the schedule of the threads and the answers of the
    operating system, from the start of the accept loop on: the
    history keeps the lock discipline, in which a thread opens log.txt,
    inserts its message, inserts the newline and closes the file, in
    this order, only between its own lock and unlock of the one mutex,
    which a single thread holds at a time; and log.txt holds the
    complete lines of the messages inserted so far, the last line
    lacking its newline only while its writer still holds the mutex.
    So whenever the mutex is free, log.txt is its initial content
    followed by one unbroken line for each message, as many lines as
    newlines were inserted; cut at the newlines, these lines are the
    messages. *)
Theorem appends_never_interleave
    (n : nat) (server_fd : Z) (log0 : string) (sched : schedule) :
  let st := run_pool sched (boot log0 (Server.AcceptConnections n server_fd)) in
  (exists s, cs_scan (history st) = Some s /\
             holder s = mutex st /\
             log_matches log0 s (log_txt st) (history st)) /\
  (mutex st = None ->
   log_txt st = log0 +:+ lines_text (appended (history st)) /\
   endl_count (history st) = length (appended (history st)) /\
   (forallb newline_free (appended (history st)) = true ->
    split_lines "" (lines_text (appended (history st))) = appended (history st))).
Proof.
  intros st. subst st.
  destruct (run_pool_inv log0 sched _ Free
              (boot_inv log0 _ (accept_loop_serial n server_fd)))
    as (s & [Hscan Hmutex _ _ Hlog]).
  split.
  - exists s. auto.
  - intros Hfree. rewrite Hfree in Hmutex.
    destruct s as [|t ph]; [|discriminate].
    unfold log_matches in Hlog. cbn in Hlog. destruct Hlog as [Htxt Hcount].
    repeat split; [exact Htxt | exact Hcount | apply split_lines_text].
Qed.

Lemma appends_never_interleave_witness :
  let st := run_pool two_clients (boot "" (Server.AcceptConnections 2 3)) in
  mutex st = None /\
  appended (history st) = ["one"; "two"] /\
  log_txt st = lines_text ["one"; "two"] /\
  split_lines "" (log_txt st) = ["one"; "two"].
Proof.
  pose proof (proj2 (appends_never_interleave 2 3 "" two_clients) eq_refl)
    as (Htxt & _ & Hsplit).
  specialize (Hsplit eq_refl).
  split; [reflexivity|]. split; [reflexivity|].
  split; [exact Htxt|].
  rewrite Htxt. exact Hsplit.
Defined.

Lemma server_survives_connection_errors_witness :
  let st := run_pool two_clients (boot "" (Server.AcceptConnections 2 3)) in
  length (threads st) = 3%nat /\
  map ev_call (fst (run (os_reading ReadError) 0 (Server.HandleClient 4))) =
    [c_read 4 Server.buffer_size; c_cerr read_failed; c_close 4] /\
  map ev_call (fst (run os_log_unwritable 0 (Server.HandleClient 4))) =
    [c_read 4 Server.buffer_size; c_lock; c_log_open; c_unlock;
     c_cerr open_failed; c_close 4].
Proof.
  pose proof (server_survives_connection_errors 2 3 "" two_clients
                (os_reading ReadError) 0 4) as (_ & _ & _ & Hread & _).
  pose proof (server_survives_connection_errors 2 3 "" two_clients
                os_log_unwritable 0 4) as (_ & _ & _ & _ & Hopen).
  split; [reflexivity|].
  split.
  - apply Hread. reflexivity.
  - apply Hopen; [discriminate | reflexivity].
Defined.

(** * Further properties *)

(** ** Arguments and exit status of [main] *)

Lemma main_no_mode (o : oracle) (n : nat) (argv : list string) :
  server_mode argv = false ->
  client_mode argv = false ->
  map ev_call (trace_of o (main n argv)) =
    [c_cerr (if Z.of_nat (length argv) <? 2 then usage_error else arguments_error)] /\
  result_of o (main n argv) = Returned 1.
Proof.
  unfold server_mode, client_mode, trace_of, result_of, main.
  intros Hs Hc.
  destruct (Z.of_nat (length argv) <? 2); [split; reflexivity|].
  rewrite Hs, Hc. split; reflexivity.
Qed.

(** X1.  [main] called without a mode, with a mode other than
    "server" and "client", or with a mode and the wrong number of
    arguments, prints one line on standard error, the usage when no
    mode is given and "Invalid arguments" otherwise, and returns 1; it
    makes no other call, so no socket is created. *)
Theorem main_rejects_bad_arguments (o : oracle) (n : nat) (argv : list string) :
  (length argv < 2)%nat \/
  (argv_at argv 1 <> "server" /\ argv_at argv 1 <> "client") \/
  (argv_at argv 1 = "server" /\ length argv <> 3%nat) \/
  (argv_at argv 1 = "client" /\ length argv <> 5%nat) ->
  map ev_call (trace_of o (main n argv)) =
    [c_cerr (if (length argv <? 2)%nat then usage_error else arguments_error)] /\
  result_of o (main n argv) = Returned 1.
Proof.
  intros H.
  assert (Hs : server_mode argv = false).
  { unfold server_mode. apply andb_false_iff.
    destruct (String.eqb_spec (argv_at argv 1) "server") as [Heq|Hne]; [right | left; reflexivity].
    apply Z.eqb_neq. destruct H as [H|[[H _]|[[_ H]|[H _]]]]; try lia; congruence. }
  assert (Hc : client_mode argv = false).
  { unfold client_mode. apply andb_false_iff.
    destruct (String.eqb_spec (argv_at argv 1) "client") as [Heq|Hne]; [right | left; reflexivity].
    apply Z.eqb_neq. destruct H as [H|[[_ H]|[[H _]|[_ H]]]]; try lia; congruence. }
  destruct (main_no_mode o n argv Hs Hc) as [Hcalls Hres].
  split; [|exact Hres]. rewrite Hcalls.
  replace (Z.of_nat (length argv) <? 2) with (length argv <? 2)%nat; [reflexivity|].
  destruct (Nat.ltb_spec (length argv) 2); symmetry; [apply Z.ltb_lt | apply Z.ltb_ge]; lia.
Qed.

Lemma main_rejects_bad_arguments_witness :
  map ev_call (trace_of os_ok (main 1 ["heartbeat"])) = [c_cerr usage_error] /\
  map ev_call (trace_of os_ok (main 1 ["heartbeat"; "client"; "alice"; "8080"])) =
    [c_cerr arguments_error].
Proof.
  split.
  - apply (main_rejects_bad_arguments os_ok 1 ["heartbeat"]). left. cbn. lia.
  - apply (main_rejects_bad_arguments os_ok 1 ["heartbeat"; "client"; "alice"; "8080"]).
    right. right. right. split; [reflexivity | cbn; lia].
Defined.

Lemma argc_not_below_two (argv : list string) (k : Z) :
  (Z.of_nat (length argv) =? k) = true -> 2 <= k ->
  (Z.of_nat (length argv) <? 2) = false.
Proof. intros H Hk. apply Z.eqb_eq in H. apply Z.ltb_ge. lia. Qed.

Lemma client_not_server (argv : list string) :
  client_mode argv = true -> server_mode argv = false.
Proof.
  unfold client_mode, server_mode. intros H. apply andb_prop in H as [_ H].
  apply Z.eqb_eq in H. rewrite H. apply andb_false_r.
Qed.

(** [main] in client mode. *)
Lemma main_client_mode (o : oracle) (n : nat) (argv : list string) :
  client_mode argv = true ->
  run o 0 (main n argv) =
    match stoi (argv_at argv 3), stoi (argv_at argv 4) with
    | inr v, inr p =>
        then_run o 0
          (run o 0 (Client.Start n (Client.mk (argv_at argv 2) (to_uint16 v) p)))
          (fun _ => Ret 0)
    | _, _ =>
        ([Ev (c_cerr "Standard exception: stoi") (o 0%nat (c_cerr "Standard exception: stoi"))],
         Returned 1)
    end.
Proof.
  intros Hc. pose proof (client_not_server argv Hc) as Hs.
  unfold server_mode in Hs. unfold client_mode in Hc.
  pose proof Hc as Hc'. apply andb_prop in Hc' as [Hm Hargc].
  unfold main. rewrite (argc_not_below_two argv 5 Hargc ltac:(lia)), Hs, Hc.
  destruct (stoi (argv_at argv 3)) as [e|v] eqn:Hv; cbn [lift bind].
  - destruct (stoi_error _ _ Hv) as [-> | ->]; destruct (stoi (argv_at argv 4)); reflexivity.
  - destruct (stoi (argv_at argv 4)) as [e|p] eqn:Hp; cbn [lift bind].
    + destruct (stoi_error _ _ Hp) as [-> | ->]; reflexivity.
    + rewrite run_try_catch, run_bind.
      destruct (Client_Start_outcome o 0 n (Client.mk (argv_at argv 2) (to_uint16 v) p))
        as [H|H];
        destruct (run o 0 (Client.Start n (Client.mk (argv_at argv 2) (to_uint16 v) p)))
          as [tr out];
        cbn in H; subst out; reflexivity.
Qed.

(** X2.  Outside the server mode, that is in client mode and for
    arguments [main] rejects, no exception leaves [main], whatever
    [socket], the address conversion, [connect], [send] and the clock
    answer: [main] returns 1 after one line on standard error and no
    other call (arguments rejected, or a port or period that
    [std::stoi] refuses), or it returns 0, or the client is still in
    its loop.  So once the client has created a socket the exit status
    is 0. *)
Theorem main_exit_status (o : oracle) (n : nat) (argv : list string) :
  server_mode argv = false ->
  (result_of o (main n argv) = Returned 1 /\
   exists l, map ev_call (trace_of o (main n argv)) = [c_cerr l]) \/
  result_of o (main n argv) = Returned 0 \/
  result_of o (main n argv) = StillRunning.
Proof.
  intros Hs. unfold result_of, trace_of.
  destruct (client_mode argv) eqn:Hc.
  - rewrite (main_client_mode o n argv Hc).
    destruct (stoi (argv_at argv 3)) as [e|v]; [cbn; eauto|].
    destruct (stoi (argv_at argv 4)) as [e|p]; [cbn; eauto|].
    destruct (Client_Start_outcome o 0 n (Client.mk (argv_at argv 2) (to_uint16 v) p))
      as [H|H];
      destruct (run o 0 (Client.Start n (Client.mk (argv_at argv 2) (to_uint16 v) p)))
        as [tr out];
      cbn in H; subst out; cbn; auto.
  - destruct (main_no_mode o n argv Hs Hc) as [Hcalls Hres].
    unfold result_of, trace_of in *.
    left. split; [exact Hres | eauto].
Qed.

Lemma main_exit_status_witness :
  let o := os_failing 2 (-1) in
  let argv := ["heartbeat"; "client"; "alice"; "8080"; "5"] in
  server_mode argv = false /\
  ((result_of o (main 3 argv) = Returned 1 /\
    exists l, map ev_call (trace_of o (main 3 argv)) = [c_cerr l]) \/
   result_of o (main 3 argv) = Returned 0 \/
   result_of o (main 3 argv) = StillRunning).
Proof.
  split; [reflexivity|].
  apply (main_exit_status (os_failing 2 (-1)) 3
           ["heartbeat"; "client"; "alice"; "8080"; "5"]).
  reflexivity.
Defined.

(** ** The client's failures *)

(** X3.  What the client does when its first round fails, by the call
    that fails: the socket handle ends (its deleter calls [close] with
    the pointer, not with the descriptor), the client prints
    "Client error: " with the message of that call, and [Start]
    returns.  After a failed send it does not sleep, and in no case
    does it start another round. *)
Theorem client_failure_messages (o : oracle) (n : nat) (this : Client.t) :
  let sock := o 0%nat c_socket in
  let converted := o 1%nat (c_inet_pton "127.0.0.1") in
  let connected := o 2%nat (c_connect sock "127.0.0.1" (Client.port_ this)) in
  let now := o 3%nat c_now in
  let local := o 4%nat (c_localtime (Client.to_time_t now)) in
  let message := Client.stamp now local +:+ " " +:+ Client.name_ this in
  let sent := o 5%nat (c_send sock message (String.length message)) in
  let calls := map ev_call (trace_of o (Client.Start (S n) this)) in
  let out := result_of o (Client.Start (S n) this) in
  (sock < 0 ->
   calls = [c_socket; c_close_ptr (new_int sock); c_cerr "Client error: Socket creation error"] /\
   out = Returned tt) /\
  (0 <= sock -> converted <= 0 ->
   calls = [c_socket; c_inet_pton "127.0.0.1"; c_close_ptr (new_int sock);
            c_cerr "Client error: Invalid address/ Address not supported"] /\
   out = Returned tt) /\
  (0 <= sock -> 0 < converted -> connected < 0 ->
   calls = [c_socket; c_inet_pton "127.0.0.1";
            c_connect sock "127.0.0.1" (Client.port_ this); c_close_ptr (new_int sock);
            c_cerr "Client error: Connection failed"] /\
   out = Returned tt) /\
  (0 <= sock -> 0 < converted -> 0 <= connected -> sent < 0 ->
   calls = [c_socket; c_inet_pton "127.0.0.1";
            c_connect sock "127.0.0.1" (Client.port_ this);
            c_now; c_localtime (Client.to_time_t now);
            c_send sock message (String.length message); c_close_ptr (new_int sock);
            c_cerr "Client error: Failed to send message"] /\
   out = Returned tt).
Proof.
  cbv zeta.
  unfold trace_of, result_of, Client.Start. cbn [Client.rounds].
  unfold Client.round, Client.CreateSocket, Client.ConnectToServer,
    Client.SendMessage, Client.GetCurrentTimestamp, on_unwind.
  simpl.
  destruct (o 0%nat c_socket <? 0) eqn:Hs; simpl.
  { apply Z.ltb_lt in Hs. repeat split; intros; try lia; f_equal; apply unit_answer. }
  apply Z.ltb_ge in Hs.
  destruct (o 1%nat (c_inet_pton "127.0.0.1") <=? 0) eqn:Hp; simpl.
  { apply Z.leb_le in Hp. repeat split; intros; try lia; f_equal; apply unit_answer. }
  apply Z.leb_gt in Hp.
  destruct (o 2%nat (c_connect _ _ _) <? 0) eqn:Hc; simpl.
  { apply Z.ltb_lt in Hc. repeat split; intros; try lia; f_equal; apply unit_answer. }
  apply Z.ltb_ge in Hc.
  match goal with |- context [Ev (c_send ?a ?b ?c) ?r] => destruct (r <? 0) eqn:Hd end; simpl.
  { apply Z.ltb_lt in Hd. repeat split; intros; try lia; f_equal; apply unit_answer. }
  apply Z.ltb_ge in Hd. repeat split; intros; lia.
Qed.

Lemma client_failure_messages_witness :
  map ev_call (trace_of (os_failing 2 (-1)) (Client.Start 3 alice)) =
    [c_socket; c_inet_pton "127.0.0.1"; c_connect 3 "127.0.0.1" 8080; c_close_ptr (new_int 3);
     c_cerr "Client error: Connection failed"].
Proof.
  apply (client_failure_messages (os_failing 2 (-1)) 2 alice); vm_compute;
    first [reflexivity | discriminate].
Defined.

(** ** What [stoi] accepts *)

Lemma skip_spaces_app (ws s : string) :
  all_spaces ws = true -> skip_spaces (ws +:+ s) = skip_spaces s.
Proof.
  induction ws as [|c ws IH]; [reflexivity|].
  cbn [all_spaces]. intros H. apply andb_prop in H as [Hc Hws].
  rewrite append_cons. cbn [skip_spaces]. rewrite Hc. auto.
Qed.

Lemma stoi_skips_spaces (ws s : string) :
  all_spaces ws = true -> stoi (ws +:+ s) = stoi s.
Proof. intros H. unfold stoi. rewrite (skip_spaces_app ws s H). reflexivity. Qed.

Lemma leading_digits_stop (acc : option Z) (tail : string) :
  starts_with_digit tail = false -> leading_digits acc tail = acc.
Proof.
  destruct tail as [|c tail]; [reflexivity|].
  unfold starts_with_digit, is_digit. cbn [leading_digits].
  destruct (digit_value c); [discriminate | reflexivity].
Qed.

Ltac digit_values :=
  repeat match goal with
         | |- context [Z.of_nat (nat_of_ascii ?c)] =>
             let v := eval vm_compute in (Z.of_nat (nat_of_ascii c)) in
             change (Z.of_nat (nat_of_ascii c)) with v
         end.

Lemma leading_digits_acc_tail (d : Decimal.uint) (tail : string) :
  starts_with_digit tail = false ->
  forall acc : positive,
    leading_digits (Some (Z.pos acc)) (NilEmpty.string_of_uint d +:+ tail) =
      Some (Z.pos (Pos.of_uint_acc d acc)).
Proof.
  intros Htail.
  induction d; intros acc; cbn [NilEmpty.string_of_uint Pos.of_uint_acc];
    [apply leading_digits_stop; exact Htail | ..];
    rewrite append_cons; cbn [leading_digits]; cbv [digit_value];
    cbn -[Z.mul Z.add Pos.mul Pos.add leading_digits];
    rewrite <- IHd; f_equal; f_equal; digit_values; lia.
Qed.

Lemma leading_digits_zero_tail (d : Decimal.uint) (tail : string) :
  starts_with_digit tail = false ->
  leading_digits (Some 0) (NilEmpty.string_of_uint d +:+ tail) =
    Some (Z.of_N (Pos.of_uint d)).
Proof.
  intros Htail.
  induction d; cbn [NilEmpty.string_of_uint Pos.of_uint];
    [apply leading_digits_stop; exact Htail | ..];
    rewrite append_cons; cbn [leading_digits]; cbv [digit_value];
    cbn -[Z.mul Z.add Pos.of_uint_acc leading_digits];
    first [exact IHd | apply leading_digits_acc_tail; exact Htail].
Qed.

Lemma leading_digits_numeral_tail (d : Decimal.uint) (tail : string) :
  d <> Decimal.Nil ->
  starts_with_digit tail = false ->
  leading_digits None (NilEmpty.string_of_uint d +:+ tail) =
    Some (Z.of_N (Pos.of_uint d)).
Proof.
  intros Hd Htail. rewrite <- (leading_digits_zero_tail d tail Htail).
  destruct d; [contradiction | ..]; reflexivity.
Qed.

Lemma stoi_numeral_tail (d : Decimal.uint) (tail : string) :
  d <> Decimal.Nil ->
  starts_with_digit tail = false ->
  stoi (NilEmpty.string_of_uint d +:+ tail) = in_int (Z.of_N (Pos.of_uint d)) /\
  stoi (String "-" (NilEmpty.string_of_uint d +:+ tail)) =
    in_int (- Z.of_N (Pos.of_uint d)) /\
  stoi (String "+" (NilEmpty.string_of_uint d +:+ tail)) =
    in_int (Z.of_N (Pos.of_uint d)).
Proof.
  intros Hd Htail. pose proof (leading_digits_numeral_tail d tail Hd Htail) as H.
  unfold stoi.
  destruct d; [contradiction | ..]; cbn [NilEmpty.string_of_uint] in *;
    rewrite ?append_cons in *;
    rewrite !skip_spaces_nonspace by reflexivity; cbv beta iota; rewrite H;
    repeat split; reflexivity.
Qed.

(** The decimal numeral of [z], as [dec] prints it. *)
Lemma dec_cases (z : Z) :
  match z with
  | 0 => dec z = "0"
  | Z.pos p => dec z = NilEmpty.string_of_uint (Pos.to_uint p)
  | Z.neg p => dec z = String "-" (NilEmpty.string_of_uint (Pos.to_uint p))
  end.
Proof.
  unfold dec. destruct z as [|p|p]; [reflexivity | |];
    cbn [Z.to_int NilZero.string_of_int]; unfold NilZero.string_of_uint;
    pose proof (Unsigned.to_uint_nonnil p) as Hn;
    destruct (Pos.to_uint p); try contradiction; reflexivity.
Qed.

(** X4.  [stoi] skips white space before the number and ignores
    whatever follows its digits: such an argument is read as the
    number alone, so "8080abc" is port 8080.  A plus sign before a
    number that is not negative changes nothing. *)
Theorem stoi_ignores_space_and_tail (ws tail : string) (z : Z) :
  all_spaces ws = true ->
  starts_with_digit tail = false ->
  stoi (ws +:+ dec z +:+ tail) = in_int z /\
  (0 <= z -> stoi (ws +:+ "+" +:+ dec z +:+ tail) = in_int z).
Proof.
  intros Hws Htail. rewrite !(stoi_skips_spaces ws _ Hws).
  pose proof (dec_cases z) as Hdec.
  destruct z as [|p|p]; rewrite Hdec.
  - split; [|intros _];
      apply (stoi_numeral_tail (Decimal.D0 Decimal.Nil) tail); [discriminate | exact Htail | discriminate | exact Htail].
  - pose proof (Unsigned.of_to p) as Hv.
    destruct (stoi_numeral_tail (Pos.to_uint p) tail (Unsigned.to_uint_nonnil p) Htail)
      as (Hpos & _ & Hplus).
    rewrite Hv in *. split; [exact Hpos | intros _; exact Hplus].
  - pose proof (Unsigned.of_to p) as Hv.
    destruct (stoi_numeral_tail (Pos.to_uint p) tail (Unsigned.to_uint_nonnil p) Htail)
      as (_ & Hneg & _).
    rewrite Hv in *. split; [exact Hneg | lia].
Qed.

Lemma stoi_ignores_space_and_tail_witness :
  stoi (" " +:+ dec 8080 +:+ "abc") = inr 8080.
Proof.
  exact (proj1 (stoi_ignores_space_and_tail " " "abc" 8080 eq_refl eq_refl)).
Defined.

(** X5.  An argument without a digit where the number should start is
    no number for [stoi]: the empty argument, white space alone, or a
    lone sign throw [invalid_argument]. *)
Theorem stoi_rejects_blank (ws : string) :
  all_spaces ws = true ->
  stoi ws = inl (invalid_argument "stoi") /\
  stoi (ws +:+ "-") = inl (invalid_argument "stoi") /\
  stoi (ws +:+ "+") = inl (invalid_argument "stoi").
Proof.
  intros Hws.
  rewrite <- (append_nil_r ws) at 1.
  rewrite !(stoi_skips_spaces ws _ Hws). repeat split.
Qed.

Lemma stoi_rejects_blank_witness :
  stoi "" = inl (invalid_argument "stoi") /\ stoi "  " = inl (invalid_argument "stoi").
Proof.
  split.
  - apply (stoi_rejects_blank ""). reflexivity.
  - apply (stoi_rejects_blank "  "). reflexivity.
Defined.

(** ** Ports and the server's set-up *)

Lemma in_int_port (p : Z) : 0 <= p <= 65535 -> in_int p = inr p /\ to_uint16 p = p.
Proof.
  intros H. split.
  - unfold in_int, INT_MIN, INT_MAX.
    replace ((- 2 ^ 31 <=? p) && (p <=? 2 ^ 31 - 1))%bool with true; [reflexivity|].
    symmetry. apply andb_true_intro. split; apply Z.leb_le; lia.
  - unfold to_uint16. apply Z.mod_small. lia.
Qed.

(** X6.  A port from 0 to 65535 written in decimal reaches the
    sockets unchanged: the server started by [main] binds that very
    port, and the client is built with it. *)
Theorem valid_port_used_unchanged (o : oracle) (n : nat)
    (prog_name name period_arg : string) (p q : Z) :
  0 <= p <= 65535 ->
  stoi period_arg = inr q ->
  run o 0 (main n [prog_name; "server"; dec p]) =
    then_run o 0 (run o 0 (Server.Start n (Server.mk p))) (fun _ => Ret 0) /\
  (o 0%nat c_socket <> -1 ->
   nth_error (map ev_call (trace_of o (main n [prog_name; "server"; dec p]))) 1 =
     Some (c_bind (o 0%nat c_socket) p)) /\
  run o 0 (main n [prog_name; "client"; name; dec p; period_arg]) =
    then_run o 0 (run o 0 (Client.Start n (Client.mk name p q))) (fun _ => Ret 0).
Proof.
  intros Hp Hq. destruct (in_int_port p Hp) as [Hint Hcast].
  assert (Hstoi : stoi (dec p) = inr p) by (rewrite stoi_dec; exact Hint).
  pose proof (main_server_run o n prog_name (dec p) p Hstoi) as Hserver.
  pose proof (main_client_run o n prog_name name (dec p) period_arg p q Hstoi Hq) as Hclient.
  rewrite Hcast in Hserver, Hclient.
  split; [exact Hserver|]. split; [|exact Hclient].
  intros Hfd. unfold trace_of. rewrite Hserver.
  pose proof (Server_Start_run o 0 n (Server.mk p)) as H. cbv zeta in H.
  cbn [Server.port_ Nat.add] in H.
  apply Z.eqb_neq in Hfd. rewrite Hfd in H.
  destruct (run o 0 (Server.Start n (Server.mk p))) as [tr out]. cbn [fst snd] in H.
  repeat match type of H with (if ?b then _ else _) => destruct b end;
    destruct H as [Hcalls ->]; cbn [then_run run fst]; rewrite ?app_nil_r, Hcalls;
    reflexivity.
Qed.

Lemma valid_port_used_unchanged_witness :
  nth_error (map ev_call (trace_of os_ok (main 1 ["heartbeat"; "server"; dec 8080]))) 1 =
    Some (c_bind 3 8080).
Proof.
  apply (valid_port_used_unchanged os_ok 1 "heartbeat" "alice" "5" 8080 5);
    first [reflexivity | vm_compute; intuition discriminate].
Defined.





(** ** The read buffer *)

(** The array read as a C string runs past its end exactly when it
    holds no NUL. *)
Lemma c_string_none (arr : string) : c_string arr = None <-> nul_free arr = true.
Proof.
  induction arr as [|c arr IH]; cbn; [split; reflexivity|].
  destruct (Ascii.eqb c NUL); cbn; [split; discriminate|].
  destruct (c_string arr); [|exact IH].
  split; [discriminate|]. intros H. apply IH in H. discriminate.
Qed.

Lemma nul_free_fill (k : nat) : nul_free (fill k NUL) = match k with O => true | S _ => false end.
Proof. destruct k; reflexivity. Qed.

Lemma prefix_of_length (n : nat) (s : string) :
  String.length (prefix_of n s) = Nat.min n (String.length s).
Proof.
  revert s. induction n as [|n IH]; intros [|c s]; cbn; try reflexivity.
  rewrite IH. reflexivity.
Qed.

(** The buffer after a read holds no NUL exactly when at least 1024
    bytes without a NUL among the first 1024 were delivered. *)
Lemma buffer_unterminated (d : string) :
  c_string (Server.buffer_after (ReadData d)) = None <->
  (Server.buffer_size <= String.length d)%nat /\
  nul_free (prefix_of Server.buffer_size d) = true.
Proof.
  rewrite c_string_none. unfold Server.buffer_after.
  rewrite nul_free_app, nul_free_fill, prefix_of_length.
  destruct (Nat.le_gt_cases Server.buffer_size (String.length d)) as [Hle|Hgt].
  - replace (Server.buffer_size - Nat.min Server.buffer_size (String.length d))%nat
      with 0%nat by lia.
    rewrite andb_true_r. tauto.
  - destruct (Server.buffer_size - Nat.min Server.buffer_size (String.length d))%nat
      eqn:Hk; [lia|].
    rewrite andb_false_r. split; [discriminate | lia].
Qed.

(** X8.  The handler's behaviour is undefined in one situation only:
    the read delivers at least 1024 bytes with no NUL among the first
    1024, and log.txt opens; the insertion of the unterminated buffer
    is then the next step.  In every other situation the handler
    returns. *)
Theorem handler_undefined_iff (o : oracle) (i : nat) (fd : Z) :
  (snd (run o i (Server.HandleClient fd)) = Undef <->
   exists d, o i (c_read fd Server.buffer_size) = ReadData d /\
             (Server.buffer_size <= String.length d)%nat /\
             nul_free (prefix_of Server.buffer_size d) = true /\
             o (2 + i)%nat c_log_open = true) /\
  (snd (run o i (Server.HandleClient fd)) = Undef \/
   snd (run o i (Server.HandleClient fd)) = Returned tt).
Proof.
  pose proof (HandleClient_run o i fd) as H. cbv zeta in H.
  destruct (o i (c_read fd Server.buffer_size)) as [|d] eqn:Hr.
  - destruct H as [_ ->]. split; [|auto].
    split; [discriminate | intros (d & Hd & _); discriminate].
  - destruct (o (2 + i)%nat c_log_open) eqn:Hopen.
    + pose proof (buffer_unterminated d) as Hbuf.
      destruct (c_string (Server.buffer_after (ReadData d))) as [s|]; destruct H as [_ ->].
      * split; [|auto]. split; [discriminate|].
        intros (d' & [= <-] & Hlen & Hnul & _).
        assert (Some s = None) by (apply Hbuf; auto). discriminate.
      * split; [|auto]. split; [|reflexivity].
        intros _. exists d. destruct Hbuf as [Hbuf _]. specialize (Hbuf eq_refl). tauto.
    + destruct H as [_ ->]. split; [|auto].
      split; [discriminate | intros (d' & _ & _ & _ & ?); discriminate].
Qed.

Lemma prefix_of_app (n : nat) (pre rest : string) (c : ascii) :
  (String.length pre < n)%nat ->
  prefix_of n (pre +:+ String c rest) =
    pre +:+ String c (prefix_of (n - S (String.length pre)) rest).
Proof.
  revert n. induction pre as [|a pre IH]; intros [|n] H; cbn in *; try lia.
  - rewrite Nat.sub_0_r. reflexivity.
  - rewrite !append_cons. cbn. rewrite IH by lia. reflexivity.
Qed.

Lemma c_string_until_nul (pre rest : string) :
  nul_free pre = true -> c_string (pre +:+ String NUL rest) = Some pre.
Proof.
  induction pre as [|c pre IH]; intros H; [reflexivity|].
  cbn in H. apply andb_prop in H as [Hc Hpre]. apply negb_true_iff in Hc.
  rewrite append_cons. cbn [c_string]. rewrite Hc, (IH Hpre). reflexivity.
Qed.

(** X9.  A NUL byte among the first 1024 bytes received ends the
    message for the log: the handler appends the bytes before the
    first NUL and a newline, and drops the rest. *)
Theorem handler_logs_up_to_nul (o : oracle) (i : nat) (fd : Z) (pre rest : string) :
  nul_free pre = true ->
  (String.length pre < Server.buffer_size)%nat ->
  o i (c_read fd Server.buffer_size) = ReadData (pre +:+ String NUL rest) ->
  o (2 + i)%nat c_log_open = true ->
  log_written (fst (run o i (Server.HandleClient fd))) = pre +:+ newline /\
  snd (run o i (Server.HandleClient fd)) = Returned tt.
Proof.
  intros Hnul Hlen Hread Hopen.
  pose proof (HandleClient_run o i fd) as H. cbv zeta in H.
  rewrite Hread, Hopen in H.
  assert (Hbuf : c_string (Server.buffer_after (ReadData (pre +:+ String NUL rest)))
                 = Some pre).
  { unfold Server.buffer_after. rewrite prefix_of_app by exact Hlen.
    rewrite append_assoc, append_cons. apply c_string_until_nul. exact Hnul. }
  rewrite Hbuf in H. destruct H as [Hcalls ->].
  unfold log_written. rewrite Hcalls. split; [|reflexivity].
  cbn. rewrite append_nil_r. reflexivity.
Qed.

Lemma handler_logs_up_to_nul_witness :
  log_written
    (fst (run (os_reading (ReadData ("one" +:+ String NUL "two"))) 0 (Server.HandleClient 4)))
    = "one" +:+ newline.
Proof.
  apply (handler_logs_up_to_nul _ 0 4 "one" "two");
    first [reflexivity | vm_compute; lia].
Defined.

(** X10.  In every run the handler reads once, 1024 bytes at most, as
    its first call, and never again, also after an error; it makes no
    other call on the network but the close of its socket: it sends
    nothing back and creates neither socket nor thread. *)
Theorem handler_reads_once (o : oracle) (i : nat) (fd : Z) :
  let calls := map ev_call (fst (run o i (Server.HandleClient fd))) in
  nth_error calls 0 = Some (c_read fd 1024) /\
  length (List.filter is_read calls) = 1%nat /\
  List.filter is_network_other calls = [].
Proof.
  pose proof (HandleClient_run o i fd) as H. cbv zeta in H. cbv zeta.
  destruct (o i (c_read fd Server.buffer_size));
    [|destruct (o (2 + i)%nat c_log_open); [destruct (c_string _)|]];
    destruct H as [-> _]; repeat split.
Qed.

(** ** Length of the message *)

(** X11.  The message of a valid name at a valid time is 24
    characters longer than the name.  So every name of fewer than 1000
    printable characters goes through: sent whole by the client and,
    when a single read delivers it and log.txt opens, appended to the
    log unchanged with its newline. *)
Theorem short_names_logged_intact
    (oc os : oracle) (i j : nat) (this : Client.t) (sock fd : Z) :
  let now := oc i c_now in
  let local := oc (S i) (c_localtime (Client.to_time_t now)) in
  let message := Client.stamp now local +:+ " " +:+ Client.name_ this in
  valid_name (Client.name_ this) = true ->
  (String.length (Client.name_ this) < 1000)%nat ->
  0 <= now -> valid_tm local = true ->
  os j (c_read fd Server.buffer_size) = ReadData message ->
  os (2 + j)%nat c_log_open = true ->
  String.length message = (24 + String.length (Client.name_ this))%nat /\
  map ev_call (fst (run oc i (Client.SendMessage this sock))) =
    [c_now; c_localtime (Client.to_time_t now);
     c_send sock message (String.length message)] /\
  log_written (fst (run os j (Server.HandleClient fd))) = message +:+ newline /\
  snd (run os j (Server.HandleClient fd)) = Returned tt.
Proof.
  intros now local message Hname Hshort Hnow Hlocal Hread Hopen.
  assert (Hlen : String.length message = (24 + String.length (Client.name_ this))%nat).
  { subst message. rewrite !length_append.
    rewrite (matches_pattern_length _ _ (stamp_shape now local Hnow Hlocal)).
    reflexivity. }
  split; [exact Hlen|].
  apply (valid_message_roundtrip oc os i j this sock fd Hname Hnow Hlocal);
    [|exact Hread | exact Hopen].
  fold now. fold local. fold message. rewrite Hlen. unfold Server.buffer_size. lia.
Qed.

Lemma short_names_logged_intact_witness :
  log_written (fst (run os_ok 0 (Server.HandleClient 4))) =
    "2023-11-14 22:13:20.123 alice" +:+ newline.
Proof.
  apply (short_names_logged_intact os_ok os_ok 0 0 alice 3 4);
    first [reflexivity | vm_compute; lia | vm_compute; discriminate].
Defined.

(** ** Sockets and pace of the client *)

(** One round: it ends with no socket handle left, without a [close]
    of a descriptor, and having slept when it ends normally. *)
Lemma round_scans (o : oracle) (i : nat) (this : Client.t) :
  fold_left handle_step (fst (run o i (Client.round this))) (Some None) = Some None /\
  existsb (is_call is_close) (fst (run o i (Client.round this))) = false /\
  match snd (run o i (Client.round this)) with
  | Returned _ =>
      fold_left (pace_step (Client.period_ this)) (fst (run o i (Client.round this)))
        (Some true) = Some true
  | Threw _ =>
      exists slept,
        fold_left (pace_step (Client.period_ this)) (fst (run o i (Client.round this)))
          (Some true) = Some slept
  | _ => False
  end.
Proof.
  unfold Client.round, Client.CreateSocket, Client.ConnectToServer,
    Client.SendMessage, Client.GetCurrentTimestamp, on_unwind.
  simpl.
  destruct (o i c_socket <? 0) eqn:Hs; simpl.
  { repeat (rewrite Z.eqb_refl; simpl). repeat split; try reflexivity. eexists; reflexivity. }
  destruct (o (S i) (c_inet_pton "127.0.0.1") <=? 0) eqn:Hp; simpl.
  { repeat (rewrite Z.eqb_refl; simpl). repeat split; try reflexivity. eexists; reflexivity. }
  destruct (o (S (S i)) (c_connect _ _ _) <? 0) eqn:Hc; simpl.
  { repeat (rewrite Z.eqb_refl; simpl). repeat split; try reflexivity. eexists; reflexivity. }
  match goal with |- context [Ev (c_send ?a ?b ?c) ?r] => destruct (r <? 0) eqn:Hd end; simpl.
  { repeat (rewrite Z.eqb_refl; simpl). repeat split; try reflexivity. eexists; reflexivity. }
  repeat (rewrite Z.eqb_refl; simpl). repeat split; reflexivity.
Qed.

Lemma rounds_scans (o : oracle) (this : Client.t) (n : nat) :
  forall i,
    fold_left handle_step (fst (run o i (Client.rounds n this))) (Some None) = Some None /\
    existsb (is_call is_close) (fst (run o i (Client.rounds n this))) = false /\
    exists slept,
      fold_left (pace_step (Client.period_ this)) (fst (run o i (Client.rounds n this)))
        (Some true) = Some slept.
Proof.
  induction n as [|n IH]; intros i; cbn [Client.rounds]; [cbn; eauto|].
  rewrite run_bind.
  destruct (round_scans o i this) as (Hfd & Hclose & Hpace).
  destruct (run o i (Client.round this)) as [tr [u|e| |]]; cbn [fst snd then_run] in *;
    try contradiction.
  - destruct (IH (i + length tr)%nat) as (Hfd' & Hclose' & Hpace').
    destruct (run o (i + length tr) (Client.rounds n this)) as [tr' out]. cbn [fst] in *.
    rewrite !fold_left_app, existsb_app, Hfd, Hclose, Hclose', Hpace. auto.
  - auto.
Qed.

Lemma Client_Start_trace (o : oracle) (n : nat) (this : Client.t) :
  exists tail,
    trace_of o (Client.Start n this) = (fst (run o 0 (Client.rounds n this)) ++ tail)%list /\
    Forall (fun e => exists l, ev_call e = c_cerr l) tail.
Proof.
  unfold trace_of, Client.Start. rewrite run_try_catch.
  destruct (run o 0 (Client.rounds n this)) as [tr [u|e| |]]; cbn [catch_run fst];
    try (exists []; rewrite app_nil_r; split; [reflexivity | constructor]).
  destruct e as [m|w|w]; cbn.
  - eexists. split; [reflexivity|]. repeat constructor. eexists. reflexivity.
  - exists []. rewrite app_nil_r. split; [reflexivity | constructor].
  - exists []. rewrite app_nil_r. split; [reflexivity | constructor].
Qed.

Lemma fold_cerr_tail {S : Type} (step : option S -> event -> option S) (tail : list event)
    (s : option S) :
  (forall s' e l, ev_call e = c_cerr l -> step s' e = s') ->
  Forall (fun e => exists l, ev_call e = c_cerr l) tail ->
  fold_left step tail s = s.
Proof.
  intros Hstep Htail. revert s.
  induction Htail as [|e tail [l He] _ IH]; intros s; [reflexivity|].
  cbn. rewrite (Hstep s e l He). apply IH.
Qed.

(** A trace without a [close] of a descriptor leaves open all that
    [socket] returned. *)
Lemma left_open_without_close (tr : list event) :
  existsb (is_call is_close) tr = false ->
  forall held, fold_left open_step tr held = (held ++ created tr)%list.
Proof.
  induction tr as [|[c x] tr IH]; intros Hclose held; cbn.
  - rewrite app_nil_r. reflexivity.
  - cbn in Hclose. apply orb_false_elim in Hclose as [Hc Htr].
    rewrite (IH Htr).
    destruct c; cbn in *; try discriminate; try reflexivity.
    destruct (x <? 0); cbn; [reflexivity|].
    rewrite <- app_assoc. reflexivity.
Qed.

(** X12.  In every run of the client's [Start] the socket handles live
    one at a time: a round calls [socket] only when no handle lives,
    connects and sends on the descriptor of its handle, and ends the
    handle once, before the next round or the end of the loop, also
    when the round fails.  But the deleter calls [close] with the
    pointer: the client never gives a descriptor to [close], and every
    descriptor that [socket] returned is still open at the end of the
    trace, one more for every round whose [socket] succeeded. *)
Theorem client_never_closes_socket (o : oracle) (n : nat) (this : Client.t) :
  handle_scan (trace_of o (Client.Start n this)) = Some None /\
  existsb (is_call is_close) (trace_of o (Client.Start n this)) = false /\
  left_open (trace_of o (Client.Start n this)) = created (trace_of o (Client.Start n this)).
Proof.
  assert (Hclose : existsb (is_call is_close) (trace_of o (Client.Start n this)) = false).
  { destruct (Client_Start_trace o n this) as (tail & -> & Htail).
    rewrite existsb_app.
    destruct (rounds_scans o this n 0) as (_ & -> & _). cbn.
    induction Htail as [|e tail [l He] _ IH]; [reflexivity|].
    cbn. unfold is_call at 1. rewrite He. exact IH. }
  split; [|split; [exact Hclose|]].
  - destruct (Client_Start_trace o n this) as (tail & -> & Htail).
    unfold handle_scan. rewrite fold_left_app.
    destruct (rounds_scans o this n 0) as (-> & _).
    apply fold_cerr_tail; [|exact Htail].
    intros [held|] [c x] l He; cbn in He; subst c; reflexivity.
  - unfold left_open. apply (left_open_without_close _ Hclose []).
Qed.

(** X13.  In every run of the client's [Start] a sleep of exactly
    [period_] seconds lies between any two sends, and the client
    never sleeps for another duration. *)
Theorem client_sends_are_paced (o : oracle) (n : nat) (this : Client.t) :
  exists slept,
    pace_scan (Client.period_ this) (trace_of o (Client.Start n this)) = Some slept.
Proof.
  destruct (Client_Start_trace o n this) as (tail & -> & Htail).
  unfold pace_scan. rewrite fold_left_app.
  destruct (rounds_scans o this n 0) as (_ & _ & slept & ->).
  exists slept. apply fold_cerr_tail; [|exact Htail].
  intros [b|] e l He; cbn; rewrite ?He; reflexivity.
Qed.

(** ** Threads, the mutex and the connections *)

(** X14.  Whatever the schedule and the answers of the operating
    system, from the start of the accept loop on: a thread that has
    ended does not hold the mutex, so no handler leaves with the log
    locked, on none of its paths; and a thread about to open, write or
    close log.txt, or to unlock, is the one holder of the mutex, which
    is a thread of the pool. *)
Theorem mutex_held_only_inside
    (n : nat) (server_fd : Z) (log0 : string) (sched : schedule) (tid : nat)
    (p : prog unit) :
  let st := run_pool sched (boot log0 (Server.AcceptConnections n server_fd)) in
  threads st !! tid = Some p ->
  (finished p -> mutex st <> Some tid) /\
  (next_in_critical_section p -> mutex st = Some tid) /\
  (forall t, mutex st = Some t -> (t < length (threads st))%nat).
Proof.
  intros st Hp. subst st.
  destruct (run_pool_inv log0 sched _ Free
              (boot_inv log0 _ (accept_loop_serial n server_fd)))
    as (s & [_ Hmutex Hthreads Hholder _]).
  pose proof (Hthreads tid p Hp) as Hser. rewrite Hmutex.
  split; [|split].
  - intros Hfin Hheld.
    destruct s as [|t ph]; [discriminate|]. cbn in Hheld. injection Hheld as ->.
    cbn in Hser. rewrite decide_True in Hser by reflexivity.
    destruct p; cbn in Hfin, Hser; try contradiction; discriminate.
  - intros Hnext.
    destruct p as [r|e| | |c k]; cbn in Hnext; try contradiction.
    cbn in Hser.
    destruct s as [|t ph]; cbn in *.
    + destruct c; try contradiction;
        first [specialize (Hser tt) | specialize (Hser true)]; cbn in Hser; contradiction.
    + case_decide; [subst; reflexivity|].
      destruct c; try contradiction;
        first [specialize (Hser tt) | specialize (Hser true)]; cbn in Hser; contradiction.
  - exact Hholder.
Qed.

Lemma mutex_held_only_inside_witness :
  let st := run_pool two_clients (boot "" (Server.AcceptConnections 2 3)) in
  threads st !! 1%nat = Some (Ret tt) /\ mutex st <> Some 1%nat.
Proof.
  split; [reflexivity|].
  apply (mutex_held_only_inside 2 3 "" two_clients 1 (Ret tt)); [reflexivity | exact I].
Defined.

Lemma accept_loop_shape (n : nat) (fd : Z) : loop_shape None (Server.AcceptConnections n fd).
Proof.
  induction n as [|n IH]; [reflexivity|].
  cbn [Server.AcceptConnections]. cbn. intros r.
  destruct (r <? 0) eqn:Hr; cbn; intros _; rewrite ?Hr.
  - exact IH.
  - apply Z.ltb_ge in Hr. apply Z.leb_le in Hr. rewrite Hr, Z.eqb_refl. exact IH.
Qed.

Lemma handler_no_accept (fd : Z) : always no_accept_or_detach (Server.HandleClient fd).
Proof. unfold Server.HandleClient. walk. Qed.

Lemma accepted_app (h1 h2 : list (nat * event)) :
  accepted (h1 ++ h2) = (accepted h1 ++ accepted h2)%list.
Proof. unfold accepted. apply flat_map_app. Qed.

Lemma detached_app (h1 h2 : list (nat * event)) :
  detached (h1 ++ h2) = (detached h1 ++ detached h2)%list.
Proof. unfold detached. apply flat_map_app. Qed.

(** A call of the accept loop: what it adds to the accepted and to the
    handed-over descriptors, and the thread it creates. *)
Lemma loop_step_lists (pend pend' : option Z) (tid : nat) (c : call) (x : ans c) :
  loop_step pend c x = Some pend' ->
  (owed pend ++ accepted [(tid, Ev c x)] = detached [(tid, Ev c x)] ++ owed pend')%list /\
  length (spawned c) = length (detached [(tid, Ev c x)]).
Proof.
  destruct c; cbn; try discriminate; destruct pend as [r|]; try discriminate.
  - intros [= <-]. cbn. destruct (x <? 0); split; reflexivity.
  - destruct (r <? 0) eqn:Hr; [|discriminate]. intros [= <-]. cbn. rewrite Hr.
    split; reflexivity.
  - destruct (0 <=? r) eqn:Hr; [|discriminate].
    destruct (client_fd =? r) eqn:Hfd; [|discriminate]. intros [= <-].
    apply Z.eqb_eq in Hfd. subst. apply Z.leb_le in Hr.
    cbn. destruct (Z.ltb_spec r 0); [lia|]. split; reflexivity.
Qed.

(** A call that neither accepts nor creates a thread adds nothing. *)
Lemma quiet_call_lists (tid : nat) (c : call) (x : ans c) :
  is_accept_or_detach c = false ->
  accepted [(tid, Ev c x)] = [] /\ detached [(tid, Ev c x)] = [] /\ spawned c = [].
Proof. destruct c; cbn; try discriminate; auto. Qed.

Lemma loop_step_call (pend pend' : option Z) (c : call) (x : ans c) :
  loop_step pend c x = Some pend' -> is_accept_or_detach c = true \/ exists l, c = c_cerr l.
Proof. destruct c; cbn; try discriminate; eauto. Qed.

Lemma pool_step_loop_inv (tid : nat) (o : forall c, ans c) (st : pool) (pend : option Z) :
  loop_inv st pend -> exists pend', loop_inv (pool_step tid o st) pend'.
Proof.
  intros Hinv. unfold pool_step.
  destruct (threads st !! tid) as [[r|e| | |c k]|] eqn:Hth; eauto.
  destruct (enabled tid c (mutex st)) eqn:Hen; eauto.
  destruct Hinv as [(p0 & Hp0 & Hshape) Hhandlers Hacc Hlen Hhist].
  pose proof (lookup_lt_Some _ _ _ Hth) as Htid.
  destruct tid as [|tid].
  - (* the accept loop *)
    rewrite Hth in Hp0. injection Hp0 as <-.
    cbn in Hshape. specialize (Hshape (o c)).
    destruct (loop_step pend c (o c)) as [pend'|] eqn:Hstep; [|contradiction].
    destruct (loop_step_lists pend pend' 0 c (o c) Hstep) as [Hlists Hspawn].
    exists pend'. constructor; cbn [history threads mutex log_txt].
    + exists (k (o c)). split; [|exact Hshape].
      rewrite lookup_app_l by (rewrite length_insert; exact Htid).
      apply list_lookup_insert_eq. exact Htid.
    + intros j p Hj Hlook.
      destruct (decide (j < length (threads st))%nat) as [Hlt|Hge].
      * rewrite lookup_app_l in Hlook by (rewrite length_insert; exact Hlt).
        rewrite list_lookup_insert_ne in Hlook by lia.
        exact (Hhandlers j p Hj Hlook).
      * rewrite lookup_app_r in Hlook by (rewrite length_insert; lia).
        destruct c; cbn in Hlook; try (rewrite lookup_nil in Hlook; discriminate).
        destruct (j - _)%nat; cbn in Hlook; [|discriminate].
        injection Hlook as <-. apply handler_no_accept.
    + rewrite accepted_app, detached_app, Hacc, <- !app_assoc. f_equal. exact Hlists.
    + rewrite length_app, length_insert, detached_app, length_app, Hlen, Hspawn. lia.
    + rewrite forallb_app, Hhist. reflexivity.
  - (* a handler *)
    pose proof (Hhandlers (S tid) _ ltac:(lia) Hth) as Hquiet.
    pose proof (always_here _ _ Hquiet) as Hc. cbn in Hc.
    destruct (quiet_call_lists (S tid) c (o c) Hc) as (Ha & Hd & Hsp).
    exists pend. constructor; cbn [history threads mutex log_txt].
    + exists p0. split; [|exact Hshape].
      rewrite lookup_app_l by (rewrite length_insert; eapply lookup_lt_Some; exact Hp0).
      rewrite list_lookup_insert_ne by lia. exact Hp0.
    + intros j p Hj Hlook. rewrite Hsp, app_nil_r in Hlook.
      destruct (decide (S tid = j)) as [<-|Hne].
      * rewrite list_lookup_insert_eq in Hlook by exact Htid.
        injection Hlook as <-. exact (always_next _ c k (o c) Hquiet).
      * rewrite list_lookup_insert_ne in Hlook by exact Hne.
        exact (Hhandlers j p Hj Hlook).
    + rewrite accepted_app, detached_app, Ha, Hd, !app_nil_r. exact Hacc.
    + rewrite Hsp, app_nil_r, length_insert, detached_app, Hd, app_nil_r. exact Hlen.
    + rewrite forallb_app, Hhist. cbn. rewrite Hc. reflexivity.
Qed.

Lemma run_pool_loop_inv (sched : schedule) (st : pool) (pend : option Z) :
  loop_inv st pend -> exists pend', loop_inv (run_pool sched st) pend'.
Proof.
  revert st pend. induction sched as [|[tid o] sched IH]; intros st pend Hinv; [eauto|].
  cbn. destruct (pool_step_loop_inv tid o st pend Hinv) as (pend1 & H1).
  exact (IH _ _ H1).
Qed.

Lemma boot_loop_inv (log0 : string) (n : nat) (fd : Z) :
  loop_inv (boot log0 (Server.AcceptConnections n fd)) None.
Proof.
  constructor; cbn; try reflexivity.
  - eexists. split; [reflexivity | apply accept_loop_shape].
  - intros [|j] p Hj; [lia | cbn; discriminate].
Qed.

(** X15.  Whatever the schedule and the answers of the operating
    system, from the start of the accept loop on: there is one handler
    thread for each descriptor handed over, the descriptors handed
    over are those [accept] gave without error, in the same order and
    each once, the newest possibly still to be handed over; and only
    the thread of the accept loop accepts connections or creates
    threads. *)
Theorem one_handler_per_connection
    (n : nat) (server_fd : Z) (log0 : string) (sched : schedule) :
  let st := run_pool sched (boot log0 (Server.AcceptConnections n server_fd)) in
  length (threads st) = S (length (detached (history st))) /\
  (accepted (history st) = detached (history st) \/
   exists r, 0 <= r /\ accepted (history st) = (detached (history st) ++ [r])%list) /\
  forallb (fun te => Nat.eqb (fst te) 0 || negb (is_accept_or_detach (ev_call (snd te))))
    (history st) = true.
Proof.
  intros st. subst st.
  destruct (run_pool_loop_inv sched _ None (boot_loop_inv log0 n server_fd))
    as (pend & [_ _ Hacc Hlen Hhist]).
  split; [exact Hlen|]. split; [|exact Hhist].
  rewrite Hacc. destruct pend as [r|]; cbn; [|left; apply app_nil_r].
  destruct (Z.ltb_spec r 0); [left; apply app_nil_r | right; eauto].
Qed.

(** One round of the accept loop, scheduled alone. *)
Lemma accept_round (server_fd fd : Z) (m : nat) (st : pool) (rest : list (prog unit)) :
  0 <= fd ->
  threads st = Server.AcceptConnections (S m) server_fd :: rest ->
  threads (pool_step 0 (os_ok 0%nat) (pool_step 0 (answer_accept fd) st)) =
    Server.AcceptConnections m server_fd :: (rest ++ [Server.HandleClient fd])%list.
Proof.
  intros Hfd Hst.
  unfold pool_step at 2. rewrite Hst. cbn [Server.AcceptConnections].
  cbn -[Server.HandleClient Server.AcceptConnections].
  destruct (Z.ltb_spec fd 0) as [Hneg|_]; [lia|].
  unfold pool_step. cbn -[Server.HandleClient Server.AcceptConnections].
  rewrite app_nil_r. reflexivity.
Qed.

Lemma accepting_threads (server_fd : Z) (fds : list Z) :
  Forall (fun fd => 0 <= fd) fds ->
  forall (m : nat) (st : pool) (rest : list (prog unit)),
    threads st = Server.AcceptConnections (length fds + m) server_fd :: rest ->
    threads (run_pool (accepting fds) st) =
      Server.AcceptConnections m server_fd
        :: (rest ++ map Server.HandleClient fds)%list.
Proof.
  induction 1 as [|fd fds Hfd _ IH]; intros m st rest Hst.
  - cbn. rewrite app_nil_r. exact Hst.
  - change (run_pool (accepting (fd :: fds)) st)
      with (run_pool (accepting fds)
              (pool_step 0 (os_ok 0%nat) (pool_step 0 (answer_accept fd) st))).
    rewrite (IH m _ (rest ++ [Server.HandleClient fd])%list).
    + rewrite <- app_assoc. reflexivity.
    + apply accept_round; assumption.
Qed.

(** X16.  The accept loop does not wait for its handlers: scheduled
    alone, it accepts any number of connections in a row and creates a
    handler thread for each, while none of these threads has made its
    first call.  There is no bound on the handlers alive at once. *)
Theorem accept_loop_never_joins (server_fd : Z) (log0 : string) (fds : list Z) :
  Forall (fun fd => 0 <= fd) fds ->
  threads (run_pool (accepting fds)
             (boot log0 (Server.AcceptConnections (length fds) server_fd))) =
    Running :: map Server.HandleClient fds.
Proof.
  intros Hfds.
  apply (accepting_threads server_fd fds Hfds 0 _ []).
  cbn. rewrite Nat.add_0_r. reflexivity.
Qed.

Lemma accept_loop_never_joins_witness :
  threads (run_pool (accepting [4; 5; 6]) (boot "" (Server.AcceptConnections 3 3))) =
    Running :: map Server.HandleClient [4; 5; 6].
Proof.
  apply (accept_loop_never_joins 3 "" [4; 5; 6]).
  repeat constructor; lia.
Defined.

(** ** Reading a line of the log *)

Lemma prefix_of_whole (s1 s2 : string) :
  prefix_of (String.length s1) (s1 +:+ s2) = s1.
Proof.
  induction s1 as [|c s1 IH]; [destruct s2; reflexivity|].
  rewrite append_cons. cbn. rewrite IH. reflexivity.
Qed.

(** X17.  The message of a valid time has a fixed layout: its first
    23 characters are the timestamp, the 24th is a space and the name
    is all that follows, so timestamp and name are read back from the
    message by position, whatever the name holds. *)
Theorem message_layout (now : Z) (local : tm) (name : string) :
  0 <= now ->
  valid_tm local = true ->
  let message := Client.stamp now local +:+ " " +:+ name in
  String.length (Client.stamp now local) = 23%nat /\
  prefix_of 23 message = Client.stamp now local /\
  drop_chars 23 message = " " +:+ name /\
  drop_chars 24 message = name.
Proof.
  intros Hnow Hlocal message. subst message.
  pose proof (matches_pattern_length _ _ (stamp_shape now local Hnow Hlocal)) as Hlen.
  cbn in Hlen. split; [exact Hlen|].
  rewrite <- Hlen at 1 2. rewrite prefix_of_whole, drop_chars_app.
  split; [reflexivity|]. split; [reflexivity|].
  replace 24%nat with (String.length (Client.stamp now local +:+ " ")).
  - rewrite <- append_assoc. apply drop_chars_app.
  - rewrite length_append, Hlen. reflexivity.
Qed.

Lemma message_layout_witness :
  drop_chars 24 (Client.stamp 1700000000123456789 (mk_tm 123 10 14 22 13 20)
                 +:+ " " +:+ "alice") = "alice".
Proof.
  apply (message_layout 1700000000123456789 (mk_tm 123 10 14 22 13 20) "alice");
    first [reflexivity | vm_compute; discriminate].
Defined.

Lemma handler_undefined_iff_witness :
  snd (run (os_reading (ReadData (fill 1024 "a"))) 0 (Server.HandleClient 4)) = Undef.
Proof.
  apply (handler_undefined_iff (os_reading (ReadData (fill 1024 "a"))) 0 4).
  exists (fill 1024 "a").
  split; [reflexivity|]. split; [vm_compute; lia|]. split; reflexivity.
Defined.

(** ** Progress of the client *)

Lemma count_calls_app (f : call -> bool) (tr1 tr2 : list event) :
  count_calls f (tr1 ++ tr2) = (count_calls f tr1 + count_calls f tr2)%nat.
Proof. unfold count_calls. rewrite List.filter_app, length_app. reflexivity. Qed.

(** A round that ends normally has made one socket, one send and one
    sleep. *)
Lemma round_counts (o : oracle) (i : nat) (this : Client.t) (u : unit) :
  snd (run o i (Client.round this)) = Returned u ->
  count_calls is_socket (fst (run o i (Client.round this))) = 1%nat /\
  count_calls is_send (fst (run o i (Client.round this))) = 1%nat /\
  count_calls is_sleep (fst (run o i (Client.round this))) = 1%nat.
Proof.
  unfold Client.round, Client.CreateSocket, Client.ConnectToServer,
    Client.SendMessage, Client.GetCurrentTimestamp, on_unwind.
  simpl.
  destruct (o i c_socket <? 0); simpl; [discriminate|].
  destruct (o (S i) (c_inet_pton "127.0.0.1") <=? 0); simpl; [discriminate|].
  destruct (o (S (S i)) (c_connect _ _ _) <? 0); simpl; [discriminate|].
  match goal with |- context [Ev (c_send ?a ?b ?c) ?r] => destruct (r <? 0) end; simpl;
    [discriminate|].
  intros _. repeat split.
Qed.

Lemma rounds_counts (o : oracle) (this : Client.t) (n : nat) :
  forall i,
    snd (run o i (Client.rounds n this)) = StillRunning ->
    count_calls is_socket (fst (run o i (Client.rounds n this))) = n /\
    count_calls is_send (fst (run o i (Client.rounds n this))) = n /\
    count_calls is_sleep (fst (run o i (Client.rounds n this))) = n.
Proof.
  induction n as [|n IH]; intros i; cbn [Client.rounds]; [repeat split|].
  rewrite run_bind.
  pose proof (round_counts o i this) as Hround.
  pose proof (round_run o i this) as Hend.
  destruct (run o i (Client.round this)) as [tr [u|e| |]]; cbn [fst snd then_run] in *;
    try discriminate; try (inversion Hend; fail).
  destruct (Hround u eq_refl) as (H1 & H2 & H3).
  specialize (IH (i + length tr)%nat).
  destruct (run o (i + length tr) (Client.rounds n this)) as [tr' out]. cbn [fst snd] in *.
  intros Hout. destruct (IH Hout) as (H1' & H2' & H3').
  rewrite !count_calls_app, H1, H2, H3, H1', H2', H3'. repeat split.
Qed.

(** X18.  As long as no call fails, each round of the client sends
    one message: after [n] rounds without failure the client has
    created [n] sockets, sent [n] messages and slept [n] times, and is
    still in its loop. *)
Theorem client_sends_once_per_round (o : oracle) (n : nat) (this : Client.t) :
  no_failure (trace_of o (Client.Start n this)) = true ->
  count_calls is_socket (trace_of o (Client.Start n this)) = n /\
  count_calls is_send (trace_of o (Client.Start n this)) = n /\
  count_calls is_sleep (trace_of o (Client.Start n this)) = n /\
  result_of o (Client.Start n this) = StillRunning.
Proof.
  unfold trace_of, result_of, Client.Start. rewrite run_try_catch.
  pose proof (rounds_counts o this n 0%nat) as Hcounts.
  destruct (rounds_run o this n 0%nat) as [tr Htr | pre e fd x m Hpre He];
    cbn [catch_run fst snd] in *.
  - intros _. destruct (Hcounts eq_refl) as (H1 & H2 & H3). auto.
  - simpl. rewrite <- !app_assoc. rewrite no_failure_app. cbn.
    rewrite He. cbn. rewrite andb_false_r. discriminate.
Qed.

Lemma client_sends_once_per_round_witness :
  count_calls is_send (trace_of os_ok (Client.Start 3 alice)) = 3%nat.
Proof.
  apply (client_sends_once_per_round os_ok 3 alice). reflexivity.
Defined.
